(** * Now-And-Later: the task/board state engine of [App.tsx]

    A shallow embedding of the task store of the Eisenhower-matrix app:
    the React state ([boards], [activeBoardId], [tasks], [activeTagFilter],
    [errorMessages], [newTaskInputs]) becomes a record [Store], and each
    command handler becomes a function [Store -> Store].  React's
    [setTasks(v)] followed by [setTasks(prev => f prev)] in one handler is
    the composition of the two updates.  [Date.now()] is an explicit
    argument [now].  Strings are Stdlib strings of ASCII characters; JS
    [trim] and [toLowerCase] are modelled on that ASCII range.  Pure UI
    flags ([showTaskForm], [editingTaskId], drag highlighting) are left out:
    no command reads them. *)

From Stdlib Require Import ZArith Lia List Bool String Ascii.
From Stdlib Require Import Relations_1 Sorted Permutation.
Import ListNotations.
Open Scope Z_scope.

(** ** Data model (the [Board], [Task] and [TaskFormData] interfaces) *)

Record Board := mkBoard { b_id : string; b_name : string }.

Inductive Recurrence := RNone | Daily | Weekly | Monthly.

Record Task := mkTask {
  id : string;
  boardId : string;
  quadrantId : string;
  title : string;
  createdAt : Z;
  completed : bool;
  completedAt : option Z;
  order : Z;
  dueDate : option string;
  reminderAt : option string;
  tags : list string;
  recurrence : Recurrence
}.

Record TaskFormData := mkForm {
  f_title : string;
  f_dueDate : string;
  f_reminderAt : string;
  f_tags : string;
  f_recurrence : Recurrence
}.

Record Store := mkStore {
  boards : list Board;
  activeBoardId : string;
  tasks : list Task;
  activeTagFilter : option string;
  errorMessages : list (string * string);
  newTaskInputs : list (string * TaskFormData)
}.

(** Functional updates of the record fields ([{ ...t, order: o }]). *)
Definition with_order (t : Task) (o : Z) : Task :=
  mkTask (id t) (boardId t) (quadrantId t) (title t) (createdAt t)
    (completed t) (completedAt t) o (dueDate t) (reminderAt t) (tags t)
    (recurrence t).

Definition with_quadrant_order (t : Task) (q : string) (o : Z) : Task :=
  mkTask (id t) (boardId t) q (title t) (createdAt t)
    (completed t) (completedAt t) o (dueDate t) (reminderAt t) (tags t)
    (recurrence t).

Definition with_tasks (st : Store) (ts : list Task) : Store :=
  mkStore (boards st) (activeBoardId st) ts (activeTagFilter st)
    (errorMessages st) (newTaskInputs st).

(** ** JS objects used as string-keyed maps *)

Fixpoint lookup {V} (k : string) (m : list (string * V)) : option V :=
  match m with
  | [] => None
  | (k', v) :: m' => if String.eqb k k' then Some v else lookup k m'
  end.

(** [{ ...m, [k]: v }]: replaces the entry of [k] or appends a new one. *)
Fixpoint set_key {V} (k : string) (v : V) (m : list (string * V))
  : list (string * V) :=
  match m with
  | [] => [(k, v)]
  | (k', v') :: m' =>
      if String.eqb k k' then (k, v) :: m' else (k', v') :: set_key k v m'
  end.

(** [const { [k]: removed, ...rest } = m]. *)
Definition remove_key {V} (k : string) (m : list (string * V))
  : list (string * V) :=
  filter (fun kv => negb (String.eqb k (fst kv))) m.

(** ** JS string primitives on ASCII *)

(** White space and line terminators removed by [String.prototype.trim]. *)
Definition is_ws (c : ascii) : bool :=
  let n := nat_of_ascii c in
  (Nat.eqb n 32 || Nat.eqb n 9 || Nat.eqb n 10 || Nat.eqb n 11
   || Nat.eqb n 12 || Nat.eqb n 13)%bool.

Fixpoint ltrim (s : string) : string :=
  match s with
  | EmptyString => EmptyString
  | String c s' => if is_ws c then ltrim s' else s
  end.

Fixpoint rtrim (s : string) : string :=
  match s with
  | EmptyString => EmptyString
  | String c s' =>
      match rtrim s' with
      | EmptyString => if is_ws c then EmptyString else String c EmptyString
      | r => String c r
      end
  end.

Definition trim (s : string) : string := rtrim (ltrim s).

Definition is_empty (s : string) : bool :=
  match s with EmptyString => true | _ => false end.

(** [s.split(',')]: always at least one piece, empty pieces kept. *)
Fixpoint split_comma (s : string) : list string :=
  match s with
  | EmptyString => [EmptyString]
  | String c s' =>
      let pieces := split_comma s' in
      if Ascii.eqb c ","%char then EmptyString :: pieces
      else match pieces with
           | p :: ps => String c p :: ps
           | [] => [String c EmptyString]
           end
  end.

(** ** Ordering: [getTasksForQuadrant] and [getNextOrder] *)

Section StableSort.
Context {A : Type} (key : A -> Z).

(** Insertion before the first element whose key is not smaller: an
    element is placed in front of the equal-keyed elements that followed
    it in the input, so the sort keeps the input order among equal keys,
    as [Array.prototype.sort] with the comparator [a.order - b.order]
    does (ES2019 requires the sort to be stable). *)
Fixpoint ins (x : A) (l : list A) : list A :=
  match l with
  | [] => [x]
  | y :: l' => if key x <=? key y then x :: l else y :: ins x l'
  end.

Fixpoint sort_by (l : list A) : list A :=
  match l with
  | [] => []
  | x :: l' => ins x (sort_by l')
  end.
End StableSort.

(** [task.tags.includes(tag)]. *)
Definition has_tag (tag : string) (t : Task) : bool :=
  existsb (String.eqb tag) (tags t).

Definition in_partition (b q : string) (t : Task) : bool :=
  (String.eqb (boardId t) b && String.eqb (quadrantId t) q
   && negb (completed t))%bool.

(** [if (activeTagFilter)]: [null] and [""] are falsy. *)
Definition tag_filter_ok (f : option string) (t : Task) : bool :=
  match f with
  | Some tag => if is_empty tag then true else has_tag tag t
  | None => true
  end.

Definition getTasksForQuadrant (st : Store) (q : string) : list Task :=
  sort_by order
    (filter (tag_filter_ok (activeTagFilter st))
       (filter (in_partition (activeBoardId st) q) (tasks st))).

(** [Math.max(...xs)] on a non-empty list. *)
Definition list_max (x : Z) (xs : list Z) : Z := fold_left Z.max xs x.

Definition getNextOrder (st : Store) (q : string) : Z :=
  match map order (getTasksForQuadrant st q) with
  | [] => 0
  | o :: os => list_max o os + 1
  end.

(** ** Adding a task *)

Definition parseTags (s : string) : list string :=
  filter (fun tag => negb (is_empty tag)) (map trim (split_comma s)).

(** [x || null] on a string field. *)
Definition or_null (s : string) : option string :=
  if is_empty s then None else Some s.

(** Decimal digits of a non-negative integer ([Number.prototype.toString]). *)
Fixpoint digits_aux (fuel : nat) (n : Z) (acc : string) : string :=
  match fuel with
  | O => acc
  | S fuel' =>
      let d := ascii_of_nat (48 + Z.to_nat (n mod 10)) in
      if n <? 10 then String d acc
      else digits_aux fuel' (n / 10) (String d acc)
  end.

Definition string_of_Z (n : Z) : string := digits_aux 64 n EmptyString.

Definition title_required : string := "Task title is required"%string.

Definition addTask (now : Z) (q : string) (st : Store) : Store :=
  match lookup q (newTaskInputs st) with
  | None => st
  | Some fd =>
      let t := trim (f_title fd) in
      if is_empty t then
        mkStore (boards st) (activeBoardId st) (tasks st) (activeTagFilter st)
          (set_key q title_required (errorMessages st)) (newTaskInputs st)
      else
        let newTask :=
          mkTask (string_of_Z now) (activeBoardId st) q t now false None
            (getNextOrder st q) (or_null (f_dueDate fd))
            (or_null (f_reminderAt fd)) (parseTags (f_tags fd))
            (f_recurrence fd) in
        mkStore (boards st) (activeBoardId st) (tasks st ++ [newTask])
          (activeTagFilter st) (set_key q EmptyString (errorMessages st))
          (remove_key q (newTaskInputs st))
  end.

(** ** JS [Date] on whole days (ECMA-262, 21.4.1)

    A [Date] built from a date-only string ["YYYY-MM-DD"] holds midnight
    UTC of that day; the handlers only shift it by whole days or months,
    so its time value stays a multiple of [msPerDay] and is represented by
    its day number [Day(t)] (days since 1970-01-01).  The local time zone
    of the host is taken to be UTC, so [getDate], [setDate], [getMonth],
    [setMonth] act on the same calendar as [toISOString].  [None] is the
    time value NaN ("Invalid Date"). *)

Definition DayFromYear (y : Z) : Z :=
  365 * (y - 1970) + (y - 1969) / 4 - (y - 1901) / 100 + (y - 1601) / 400.

Definition InLeapYear (y : Z) : Z :=
  if negb (y mod 4 =? 0) then 0
  else if negb (y mod 100 =? 0) then 1
  else if negb (y mod 400 =? 0) then 0
  else 1.

Definition DaysInYear (y : Z) : Z := 365 + InLeapYear y.

(** First day, within its year, of the 0-based month [m]. *)
Definition month_start (m leap : Z) : Z :=
  match m with
  | 0 => 0 | 1 => 31 | 2 => 59 + leap | 3 => 90 + leap
  | 4 => 120 + leap | 5 => 151 + leap | 6 => 181 + leap
  | 7 => 212 + leap | 8 => 243 + leap | 9 => 273 + leap
  | 10 => 304 + leap | 11 => 334 + leap | _ => 365 + leap
  end.

Definition DaysInMonth (y m : Z) : Z :=
  month_start (m + 1) (InLeapYear y) - month_start m (InLeapYear y).

(** [YearFromTime]: the year [y] with [DayFromYear y <= d < DayFromYear (y+1)],
    found from the estimate [1970 + d / 365.2425] and one correcting step. *)
Definition YearFromDay (d : Z) : Z :=
  let y0 := 1970 + (400 * d) / 146097 in
  if d <? DayFromYear y0 then y0 - 1
  else if DayFromYear (y0 + 1) <=? d then y0 + 1
  else y0.

Definition MonthFromDayInYear (dy leap : Z) : Z :=
  if dy <? 31 then 0
  else if dy <? 59 + leap then 1
  else if dy <? 90 + leap then 2
  else if dy <? 120 + leap then 3
  else if dy <? 151 + leap then 4
  else if dy <? 181 + leap then 5
  else if dy <? 212 + leap then 6
  else if dy <? 243 + leap then 7
  else if dy <? 273 + leap then 8
  else if dy <? 304 + leap then 9
  else if dy <? 334 + leap then 10
  else 11.

(** [getFullYear], [getMonth] (0-based) and [getDate] of a day number. *)
Definition civil (d : Z) : Z * Z * Z :=
  let y := YearFromDay d in
  let leap := InLeapYear y in
  let dy := d - DayFromYear y in
  let m := MonthFromDayInYear dy leap in
  (y, m, dy - month_start m leap + 1).

(** [MakeDay(year, month, date)] with a 0-based, possibly overflowing month
    and a possibly overflowing date. *)
Definition MakeDay (year month date : Z) : Z :=
  let ym := year + month / 12 in
  let mn := month mod 12 in
  DayFromYear ym + month_start mn (InLeapYear ym) + date - 1.

(** [TimeClip] on a whole-day time value: beyond 8.64e15 ms it is NaN. *)
Definition TimeClip (d : Z) : option Z :=
  if Z.abs d <=? 100000000 then Some d else None.

Definition getDate (d : Z) : Z := let '(_, _, dt) := civil d in dt.
Definition getMonth (d : Z) : Z := let '(_, m, _) := civil d in m.

(** [date.setDate(dt)] and [date.setMonth(m)]. *)
Definition setDate (d dt : Z) : option Z :=
  let '(y, m, _) := civil d in TimeClip (MakeDay y m dt).

Definition setMonth (d m : Z) : option Z :=
  let '(y, _, dt) := civil d in TimeClip (MakeDay y m dt).

Definition digit_of (c : ascii) : option Z :=
  let n := nat_of_ascii c in
  if (Nat.leb 48 n && Nat.leb n 57)%bool then Some (Z.of_nat n - 48) else None.

Fixpoint digits_value (s : string) (acc : Z) : option Z :=
  match s with
  | EmptyString => Some acc
  | String c s' =>
      match digit_of c with
      | Some k => digits_value s' (10 * acc + k)
      | None => None
      end
  end.

Definition is_dash (c : option ascii) : bool :=
  match c with Some c => Ascii.eqb c "-"%char | None => false end.

(** [new Date("YYYY-MM-DD")]: the date-only ISO form, read as UTC.  A
    month outside 1..12 or a day outside the month is taken as an invalid
    date (ECMA-262 leaves out-of-range fields to the implementation). *)
Definition parseDate (s : string) : option Z :=
  if negb (String.length s =? 10)%nat then None else
  match digits_value (substring 0 4 s) 0, digits_value (substring 5 2 s) 0,
        digits_value (substring 8 2 s) 0 with
  | Some y, Some m, Some d =>
      if (is_dash (String.get 4 s) && is_dash (String.get 7 s)
          && (1 <=? m) && (m <=? 12) && (1 <=? d)
          && (d <=? DaysInMonth y (m - 1)))%bool
      then Some (MakeDay y (m - 1) d) else None
  | _, _, _ => None
  end.

Fixpoint zeros (n : nat) : string :=
  match n with O => EmptyString | S n' => String "0"%char (zeros n') end.

(** [String(n).padStart(w, "0")] for [n >= 0]. *)
Definition pad (w : nat) (n : Z) : string :=
  let s := string_of_Z n in (zeros (w - String.length s) ++ s)%string.

(** [date.toISOString().split('T')[0]] (a valid date). *)
Definition isoDate (d : Z) : string :=
  let '(y, m, dt) := civil d in
  let ys := if (Z.leb 0 y && Z.leb y 9999)%bool then pad 4 y
            else ((if Z.ltb y 0 then "-" else "+") ++ pad 6 (Z.abs y))%string in
  (ys ++ "-" ++ pad 2 (m + 1) ++ "-" ++ pad 2 dt)%string.

(** ** Completion and recurrence ([completeTask]) *)

(** The [switch (task.recurrence)] of [completeTask] on the parsed due date;
    [None] when [toISOString] would throw on an invalid date. *)
Definition nextDueDate (r : Recurrence) (due : string) : option string :=
  match parseDate due with
  | None => None
  | Some cur =>
      let next :=
        match r with
        | Daily => setDate cur (getDate cur + 1)
        | Weekly => setDate cur (getDate cur + 7)
        | Monthly => setMonth cur (getMonth cur + 1)
        | RNone => Some cur
        end in
      option_map isoDate next
  end.

Definition find_task (tid : string) (ts : list Task) : option Task :=
  find (fun t => String.eqb (id t) tid) ts.

Definition is_none_rec (r : Recurrence) : bool :=
  match r with RNone => true | _ => false end.

(** [completeTask(taskId)]: the completion update, then, for a recurring task
    with a due date, [setTasks(prev => [...prev, nextTask])].  When the
    date computation throws, only the completion update has been queued. *)
Definition completeTask (now : Z) (taskId : string) (st : Store) : Store :=
  match find_task taskId (tasks st) with
  | None => st
  | Some task =>
      let done :=
        map (fun t => if String.eqb (id t) taskId then
                        mkTask (id t) (boardId t) (quadrantId t) (title t)
                          (createdAt t) true (Some now) (order t) (dueDate t)
                          (reminderAt t) (tags t) (recurrence t)
                      else t) (tasks st) in
      let spawned :=
        match dueDate task with
        | Some due =>
            if negb (is_none_rec (recurrence task)) && negb (is_empty due)
            then match nextDueDate (recurrence task) due with
                 | Some nd =>
                     [mkTask (string_of_Z now) (boardId task) (quadrantId task)
                        (title task) now false None
                        (getNextOrder st (quadrantId task)) (Some nd)
                        (reminderAt task) (tags task) (recurrence task)]
                 | None => []
                 end
            else []
        | None => []
        end in
      with_tasks st (done ++ spawned)
  end.

(** [restoreTask(taskId)]. *)
Definition restoreTask (taskId : string) (st : Store) : Store :=
  match find_task taskId (tasks st) with
  | None => st
  | Some task =>
      with_tasks st
        (map (fun t => if String.eqb (id t) taskId then
                         mkTask (id t) (boardId t) (quadrantId t) (title t)
                           (createdAt t) false None
                           (getNextOrder st (quadrantId task)) (dueDate t)
                           (reminderAt t) (tags t) (recurrence t)
                       else t) (tasks st))
  end.

(** ** Boards ([deleteBoard] of the Firebase-era [App.tsx] versions) *)

Definition defaultBoard : Board := mkBoard "1"%string "My Matrix"%string.

Definition deleteBoard (bid : string) (st : Store) : Store :=
  let updatedTasks := filter (fun t => negb (String.eqb (boardId t) bid)) (tasks st) in
  let updatedBoards := filter (fun b => negb (String.eqb (b_id b) bid)) (boards st) in
  let '(bs, active) :=
    if String.eqb (activeBoardId st) bid then
      match updatedBoards with
      | b :: _ => (updatedBoards, b_id b)
      | [] => ([defaultBoard], b_id defaultBoard)
      end
    else (updatedBoards, activeBoardId st) in
  mkStore bs active updatedTasks (activeTagFilter st) (errorMessages st)
    (newTaskInputs st).

(** ** Moves ([handleDrop] and [handleKeyboardMove]) *)

(** [xs.findIndex(t => t.id === tid)], [None] for [-1]. *)
Fixpoint findIndex (tid : string) (ts : list Task) : option nat :=
  match ts with
  | [] => None
  | t :: ts' =>
      if String.eqb (id t) tid then Some O
      else option_map S (findIndex tid ts')
  end.

Definition in_quadrant_of_board (b : string) (q : option string) (t : Task) : bool :=
  match q with
  | Some q => in_partition b q t
  | None => false   (* [t.quadrantId === null] is false *)
  end.

(** [handleDrop(e, targetQuadrantId, targetIndex?)]: [taskId] is the dragged
    id read from [dataTransfer], [dragTask] and [sourceQuadrant] the
    [dragState] recorded by [handleDragStart]. *)
Definition handleDrop (taskId : string) (dragTask : option string)
    (sourceQuadrant : option string) (targetQuadrantId : string)
    (targetIndex : option nat) (st : Store) : Store :=
  if is_empty taskId then st else
  match dragTask with
  | None => st
  | Some _ =>
  match find_task taskId (tasks st) with
  | None => st
  | Some _ =>
      let targetQuadrantTasks := getTasksForQuadrant st targetQuadrantId in
      let newOrder :=
        match targetIndex with
        | Some i =>
            if Nat.leb (List.length targetQuadrantTasks) i
            then getNextOrder st targetQuadrantId
            else match nth_error targetQuadrantTasks i with
                 | Some targetTask => order targetTask
                 | None => getNextOrder st targetQuadrantId
                 end
        | None => getNextOrder st targetQuadrantId
        end in
      let updatedTasks :=
        map (fun t =>
               if String.eqb (id t) taskId
               then with_quadrant_order t targetQuadrantId newOrder
               else if in_partition (activeBoardId st) targetQuadrantId t
               then (match targetIndex with
                     | Some _ => if newOrder <=? order t
                                 then with_order t (order t + 1) else t
                     | None => t
                     end)
               else t) (tasks st) in
      let finalTasks :=
        map (fun t =>
               if in_quadrant_of_board (activeBoardId st) sourceQuadrant t then
                 let sourceTasks :=
                   sort_by order
                     (filter (fun u =>
                                in_quadrant_of_board (activeBoardId st) sourceQuadrant u
                                && negb (String.eqb (id u) taskId))%bool
                        updatedTasks) in
                 match findIndex (id t) sourceTasks with
                 | Some k => with_order t (Z.of_nat k)
                 | None => t
                 end
               else t) updatedTasks in
      with_tasks st finalTasks
  end
  end.

Inductive Direction := Up | Down.

(** [handleKeyboardMove(taskId, targetQuadrantId, direction?)]. *)
Definition handleKeyboardMove (taskId targetQuadrantId : string)
    (direction : option Direction) (st : Store) : Store :=
  match find_task taskId (tasks st) with
  | None => st
  | Some task =>
      match direction with
      | Some dir =>
          let quadrantTasks := getTasksForQuadrant st (quadrantId task) in
          let currentIndex :=
            match findIndex taskId quadrantTasks with
            | Some k => Z.of_nat k
            | None => -1
            end in
          let targetIndex :=
            match dir with Up => currentIndex - 1 | Down => currentIndex + 1 end in
          if (0 <=? targetIndex) && (targetIndex <? Z.of_nat (List.length quadrantTasks))
          then
            match nth_error quadrantTasks (Z.to_nat targetIndex) with
            | Some targetTask =>
                with_tasks st
                  (map (fun t =>
                          if String.eqb (id t) taskId
                          then with_order t (order targetTask)
                          else if String.eqb (id t) (id targetTask)
                          then with_order t (order task)
                          else t) (tasks st))
            | None => st
            end
          else st
      | None =>
          let newOrder := getNextOrder st targetQuadrantId in
          with_tasks st
            (map (fun t => if String.eqb (id t) taskId
                           then with_quadrant_order t targetQuadrantId newOrder
                           else t) (tasks st))
      end
  end.

(** ** Search (the search [useEffect]) *)

Definition lower_ascii (c : ascii) : ascii :=
  let n := nat_of_ascii c in
  if (Nat.leb 65 n && Nat.leb n 90)%bool then ascii_of_nat (n + 32) else c.

(** [s.toLowerCase()]. *)
Fixpoint toLowerCase (s : string) : string :=
  match s with
  | EmptyString => EmptyString
  | String c s' => String (lower_ascii c) (toLowerCase s')
  end.

(** [s.includes(q)]. *)
Fixpoint includes (s q : string) : bool :=
  (String.prefix q s ||
   match s with
   | EmptyString => false
   | String _ s' => includes s' q
   end)%bool.

Record SearchResult := mkResult {
  r_task : Task;
  r_boardName : string;
  r_quadrantName : string;
  r_isArchived : bool
}.

Definition quadrants : list (string * string) :=
  [("Q1", "Urgent & Important"); ("Q2", "Not Urgent & Important");
   ("Q3", "Urgent & Not Important"); ("Q4", "Not Urgent & Not Important")]%string.

Definition search_matches (query : string) (t : Task) : bool :=
  (includes (toLowerCase (title t)) query
   || existsb (fun tag => includes (toLowerCase tag) query) (tags t))%bool.

Definition search (searchQuery : string) (bs : list Board) (ts : list Task)
    : list SearchResult :=
  if is_empty (trim searchQuery) then [] else
  let query := toLowerCase searchQuery in
  map (fun t =>
         mkResult t
           (match find (fun b => String.eqb (b_id b) (boardId t)) bs with
            | Some b => if is_empty (b_name b) then "Unknown Board"%string
                        else b_name b
            | None => "Unknown Board"%string
            end)
           (match lookup (quadrantId t) quadrants with
            | Some n => if is_empty n then quadrantId t else n
            | None => quadrantId t
            end)
           (completed t))
    (filter (search_matches query) ts).

(** ** Rendered positions of a quadrant

    A displayed task is identified by its position in [tasks] (the storage
    index) together with the task.  The rendered sequence orders them by
    [order], ties broken by storage index. *)

Definition indexed (ts : list Task) : list (nat * Task) :=
  combine (seq 0 (List.length ts)) ts.

Definition displayed_indexed (st : Store) (q : string) : list (nat * Task) :=
  filter (fun p => tag_filter_ok (activeTagFilter st) (snd p))
    (filter (fun p => in_partition (activeBoardId st) q (snd p))
       (indexed (tasks st))).

Definition render_key (p : nat * Task) : Z := order (snd p).

Definition render_lt (p1 p2 : nat * Task) : Prop :=
  order (snd p1) < order (snd p2)
  \/ (order (snd p1) = order (snd p2) /\ (fst p1 < fst p2)%nat).

(** ** Editing a task ([updateTask]) *)

Definition updateTask (taskId : string) (fd : TaskFormData) (st : Store) : Store :=
  let trimmedTitle := trim (f_title fd) in
  if is_empty trimmedTitle then
    mkStore (boards st) (activeBoardId st) (tasks st) (activeTagFilter st)
      (set_key taskId title_required (errorMessages st)) (newTaskInputs st)
  else
    mkStore (boards st) (activeBoardId st)
      (map (fun t =>
              if String.eqb (id t) taskId then
                mkTask (id t) (boardId t) (quadrantId t) trimmedTitle
                  (createdAt t) (completed t) (completedAt t) (order t)
                  (or_null (f_dueDate fd)) (or_null (f_reminderAt fd))
                  (parseTags (f_tags fd)) (f_recurrence fd)
              else t) (tasks st))
      (activeTagFilter st) (set_key taskId EmptyString (errorMessages st))
      (newTaskInputs st).

(** Case-insensitive substring containment, as the search is meant to be
    read: [q] occurs in [s] once both are lower-cased. *)
Definition ci_contains (s q : string) : Prop :=
  exists a b, toLowerCase s = (a ++ toLowerCase q ++ b)%string.

(** Exchange of the [order] fields of the tasks [a] and [b], every other
    task left as it is (the spec's "swap their two order values"). *)
Definition swap_orders (a b t : Task) : Task :=
  if String.eqb (id t) (id a) then with_order t (order b)
  else if String.eqb (id t) (id b) then with_order t (order a)
  else t.

(** Position of the neighbour above ([Up]) or below ([Down]) position [k]
    of a list of length [n]. *)
Definition neighbour (dir : Direction) (k n : nat) : option nat :=
  match dir with
  | Up => match k with O => None | S k' => Some k' end
  | Down => if Nat.ltb (S k) n then Some (S k) else None
  end.

(** The source quadrant's remaining active tasks, other than the moved one,
    in their previous display sequence. *)
Definition source_sequence (st : Store) (taskId src : string) : list Task :=
  sort_by order
    (filter (fun u => in_partition (activeBoardId st) src u
                      && negb (String.eqb (id u) taskId))%bool (tasks st)).

(** [(id, quadrantId, order)] of every stored task. *)
Definition placement (st : Store) : list (string * string * Z) :=
  map (fun t => (id t, quadrantId t, order t)) (tasks st).

Definition with_tag_filter (st : Store) (f : option string) : Store :=
  mkStore (boards st) (activeBoardId st) (tasks st) f (errorMessages st)
    (newTaskInputs st).

(** ** Sample stores *)

Definition blank_form : TaskFormData :=
  mkForm "   "%string EmptyString EmptyString EmptyString RNone.

Definition sample_task (tid b q : string) (o : Z) (tg : list string) : Task :=
  mkTask tid b q tid 0 false None o None None tg RNone.

Definition dup_tags_form : TaskFormData :=
  mkForm "Plan"%string EmptyString EmptyString "a, a"%string RNone.

Definition empty_store_with (q : string) (fd : TaskFormData) : Store :=
  mkStore [mkBoard "1" "My Matrix"]%string "1"%string [] None [] [(q, fd)].

Definition two_task_store : Store :=
  mkStore [mkBoard "1" "My Matrix"]%string "1"%string
    [sample_task "a" "1" "Q1" 0 []; sample_task "b" "1" "Q1" 1 []]%string
    None [] [].

Definition cross_store : Store :=
  mkStore [mkBoard "1" "My Matrix"]%string "1"%string
    [sample_task "A" "1" "Q2" 0 []; sample_task "D" "1" "Q2" 1 [];
     sample_task "B" "1" "Q1" 0 []; sample_task "C" "1" "Q1" 1 []]%string
    None [] [].

Definition same_store : Store :=
  mkStore [mkBoard "1" "My Matrix"]%string "1"%string
    [sample_task "A" "1" "Q1" 0 []; sample_task "B" "1" "Q1" 1 [];
     sample_task "C" "1" "Q1" 2 []]%string
    None [] [].

Definition new_form : TaskFormData :=
  mkForm "New"%string EmptyString EmptyString EmptyString RNone.

(** Quadrant Q1 holds an untagged task X (order 5) and a task Y tagged
    [work] (order 0), next to a completed task R; the tag filter [work]
    is active. *)
Definition filtered_store : Store :=
  mkStore [mkBoard "1" "My Matrix"]%string "1"%string
    [sample_task "X" "1" "Q1" 5 []; sample_task "Y" "1" "Q1" 0 ["work"];
     mkTask "R" "1" "Q1" "R" 0 true (Some 3) 3 None None [] RNone]%string
    (Some "work"%string) [] [("Q1"%string, new_form)].

(** ** Calendar dates *)

(** A calendar date: year [y], 0-based month [m], day [d] of that month. *)
Definition valid_date (y m d : Z) : Prop :=
  0 <= m <= 11 /\ 1 <= d <= DaysInMonth y m.

(** The calendar month after month [m] of year [y]. *)
Definition next_month (y m : Z) : Z * Z :=
  if m =? 11 then (y + 1, 0) else (y, m + 1).

(** Calendar date of the next due date computed by [completeTask], described
    on the calendar: one or seven days later, or for [monthly] the same day of
    the next month, running over into the month after by the missing days
    when the next month is shorter. *)
Definition next_due_calendar (r : Recurrence) (cur : Z) : Z * Z * Z :=
  match r with
  | Daily => civil (cur + 1)
  | Weekly => civil (cur + 7)
  | Monthly =>
      let '(y, m, d) := civil cur in
      let '(ny, nm) := next_month y m in
      let dim := DaysInMonth ny nm in
      if d <=? dim then (ny, nm, d)
      else let '(ny2, nm2) := next_month ny nm in (ny2, nm2, d - dim)
  | RNone => civil cur
  end.

(** A board with one monthly task due on the 31st of January 2024. *)
Definition monthly_store : Store :=
  mkStore [mkBoard "1" "My Matrix"]%string "1"%string
    [mkTask "m" "1" "Q1" "Pay rent" 0 false None 0 (Some "2024-01-31")
       None [] Monthly]%string
    None [] [].

(** ** Further handlers of [App.tsx] *)

(** [deleteTask(taskId)]. *)
Definition deleteTask (taskId : string) (st : Store) : Store :=
  with_tasks st (filter (fun t => negb (String.eqb (id t) taskId)) (tasks st)).

(** [allTags.add(tag)] on a [Set<string>]: insertion order, no repetition. *)
Definition set_add (x : string) (s : list string) : list string :=
  if existsb (String.eqb x) s then s else s ++ [x].

(** [Array.prototype.sort()] without a comparator on strings: the order of
    UTF-16 code units, i.e. [String.compare] on ASCII; stable. *)
Fixpoint ins_string (x : string) (l : list string) : list string :=
  match l with
  | [] => [x]
  | y :: l' => if String.leb x y then x :: l else y :: ins_string x l'
  end.

Fixpoint sort_strings (l : list string) : list string :=
  match l with
  | [] => []
  | x :: l' => ins_string x (sort_strings l')
  end.

(** [ts.forEach(task => task.tags.forEach(tag => allTags.add(tag)))]. *)
Definition collect_tags (ts : list Task) : list string :=
  fold_left (fun s t => fold_left (fun s tag => set_add tag s) (tags t) s) ts [].

Definition getAllTags (st : Store) : list string :=
  sort_strings
    (collect_tags
       (filter (fun t => String.eqb (boardId t) (activeBoardId st)
                         && negb (completed t))%bool (tasks st))).

Definition getArchiveTags (st : Store) : list string :=
  sort_strings
    (collect_tags
       (filter (fun t => String.eqb (boardId t) (activeBoardId st)
                         && completed t)%bool (tasks st))).

(** [getCompletedTasks()]: [archiveTagFilter] and [archiveSortType] are
    React state of the archive view, passed explicitly; [localeCompare] is
    the host's collation, a parameter of the model. *)
Inductive ArchiveSortType := SortDate | SortQuadrant | SortTitle.

(** [Array.prototype.sort(cmp)] for a consistent comparator: the stable
    sort, [x] placed before [y] unless [cmp x y > 0]. *)
Fixpoint ins_cmp {A} (cmp : A -> A -> Z) (x : A) (l : list A) : list A :=
  match l with
  | [] => [x]
  | y :: l' => if cmp x y <=? 0 then x :: l else y :: ins_cmp cmp x l'
  end.

Fixpoint sort_cmp {A} (cmp : A -> A -> Z) (l : list A) : list A :=
  match l with
  | [] => []
  | x :: l' => ins_cmp cmp x (sort_cmp cmp l')
  end.

(** [t.completedAt || 0]. *)
Definition completedAt_or_0 (t : Task) : Z :=
  match completedAt t with Some c => c | None => 0 end.

Definition getCompletedTasks (localeCompare : string -> string -> Z)
    (archiveTagFilter : option string) (archiveSortType : ArchiveSortType)
    (st : Store) : list Task :=
  let filteredTasks :=
    filter (fun t => String.eqb (boardId t) (activeBoardId st) && completed t)%bool
      (tasks st) in
  let filteredTasks := filter (tag_filter_ok archiveTagFilter) filteredTasks in
  match archiveSortType with
  | SortDate =>
      sort_cmp (fun a b => completedAt_or_0 b - completedAt_or_0 a) filteredTasks
  | SortQuadrant =>
      sort_cmp (fun a b => localeCompare (quadrantId a) (quadrantId b)) filteredTasks
  | SortTitle =>
      sort_cmp (fun a b => localeCompare (title a) (title b)) filteredTasks
  end.

(** [createNewBoard()]: [boardName] is the value returned by [prompt],
    [None] when the dialog is cancelled. *)
Definition createNewBoard (now : Z) (boardName : option string) (st : Store) : Store :=
  match boardName with
  | None => st
  | Some n =>
      if is_empty (trim n) then st else
      let newBoard := mkBoard (string_of_Z now) (trim n) in
      mkStore (boards st ++ [newBoard]) (b_id newBoard) (tasks st)
        (activeTagFilter st) (errorMessages st) (newTaskInputs st)
  end.

(** ** Due dates on screen ([isOverdue], [formatDueDate])

    [now] is [Date.now()] in milliseconds; the local time zone is UTC, as
    in [completeTask].  [new Date(dueDate)] is [parseDate]: midnight UTC of
    the day, or an invalid date ([None]) for strings outside ["YYYY-MM-DD"],
    which the date input does not produce. *)

Definition msPerDay : Z := 86400000.

(** [today.setHours(0, 0, 0, 0)]: the start of the current day. *)
Definition startOfDay (now : Z) : Z := now - now mod msPerDay.

(** [isOverdue(dueDate)]: [due < today]; a comparison with an invalid
    date is false. *)
Definition isOverdue (now : Z) (dueDate : option string) : bool :=
  match dueDate with
  | None => false
  | Some s =>
      if is_empty s then false else
      let today := startOfDay now in
      match parseDate s with
      | Some d => d * msPerDay <? today
      | None => false
      end
  end.

(** Short month names of [toLocaleDateString('en-US', { month: 'short' })]. *)
Definition month_short (m : Z) : string :=
  match m with
  | 0 => "Jan" | 1 => "Feb" | 2 => "Mar" | 3 => "Apr" | 4 => "May"
  | 5 => "Jun" | 6 => "Jul" | 7 => "Aug" | 8 => "Sep" | 9 => "Oct"
  | 10 => "Nov" | _ => "Dec"
  end%string.

(** [formatDueDate(dueDate)].  [tomorrow] is [today] moved one day on with
    [setDate] and then reset to midnight: the start of the next day. *)
Definition formatDueDate (now : Z) (dueDate : string) : string :=
  let today := startOfDay now in
  let tomorrow := today + msPerDay in
  match parseDate dueDate with
  | None => "Invalid Date"%string
  | Some d =>
      let dueDateOnly := d * msPerDay in
      if dueDateOnly =? today then "Today"%string
      else if dueDateOnly =? tomorrow then "Tomorrow"%string
      else let '(_, m, dt) := civil d in
           (month_short m ++ " " ++ string_of_Z dt)%string
  end.

(** ** Reminders (the [checkReminders] interval)

    [parseTime] is the host's [new Date(reminderAt)] ([None] for an invalid
    date), a parameter of the model. *)
Definition reminder_fires (parseTime : string -> option Z) (now : Z) (t : Task) : bool :=
  match reminderAt t with
  | None => false
  | Some r =>
      if is_empty r then false
      else if completed t then false
      else match parseTime r with
           | Some reminderTime => (reminderTime <=? now) && (now - 60000 <? reminderTime)
           | None => false
           end
  end.

(** The tasks passed to [showNotification] by one run of [checkReminders]. *)
Definition checkReminders (parseTime : string -> option Z) (now : Z)
    (ts : list Task) : list Task :=
  filter (reminder_fires parseTime now) ts.

(** [setInterval(checkReminders, 30000)]: the [k]-th run after [t0]. *)
Definition reminderTick (t0 : Z) (k : Z) : Z := t0 + 30000 * k.

(** ** User initials ([getUserInitials] of the sign-in component) *)

(** [email.split('@')[0]]. *)
Fixpoint before_at (s : string) : string :=
  match s with
  | EmptyString => EmptyString
  | String c s' => if Ascii.eqb c "@"%char then EmptyString else String c (before_at s')
  end.

Definition upper_ascii (c : ascii) : ascii :=
  let n := nat_of_ascii c in
  if (Nat.leb 97 n && Nat.leb n 122)%bool then ascii_of_nat (n - 32) else c.

(** [s.toUpperCase()]. *)
Fixpoint toUpperCase (s : string) : string :=
  match s with
  | EmptyString => EmptyString
  | String c s' => String (upper_ascii c) (toUpperCase s')
  end.

Definition getUserInitials (email : string) : string :=
  toUpperCase (substring 0 2 (before_at email)).

Definition is_lower_ascii (c : ascii) : bool :=
  (Nat.leb 97 (nat_of_ascii c) && Nat.leb (nat_of_ascii c) 122)%bool.

(** A board with one daily task due on the 31st of January 2024. *)
Definition daily_store : Store :=
  mkStore [mkBoard "1" "My Matrix"]%string "1"%string
    [mkTask "d" "1" "Q1" "Stretch" 0 false None 0 (Some "2024-01-31") None []
       Daily]%string
    None [] [].

(** Quadrant Q1 holds A (order 0, tagged [work]), B (order 1, untagged)
    and C (order 2, tagged [work]); the tag filter [work] is active, so
    the quadrant shows A and C only. *)
Definition tagged_move_store : Store :=
  mkStore [mkBoard "1" "My Matrix"]%string "1"%string
    [sample_task "A" "1" "Q1" 0 ["work"]; sample_task "B" "1" "Q1" 1 [];
     sample_task "C" "1" "Q1" 2 ["work"]]%string
    (Some "work"%string) [] [].

(* ================================================================== *)
(** * Proofs *)

(** ** Maps *)

Lemma lookup_set_key_same {V} (k : string) (v : V) m :
  lookup k (set_key k v m) = Some v.
Proof.
  induction m as [|[k' v'] m IH]; simpl.
  - rewrite String.eqb_refl. reflexivity.
  - destruct (String.eqb k k') eqn:E; simpl.
    + rewrite String.eqb_refl. reflexivity.
    + rewrite E. exact IH.
Qed.

(** ** C4: a blank title is rejected and leaves the tasks alone *)

(** C4: adding a task whose title trims to the empty string records the
    error "Task title is required" under the quadrant's form key and leaves
    the task collection, the boards and the active board unchanged. *)
Theorem addTask_blank_title_rejected (now : Z) (q : string) (st : Store)
    (fd : TaskFormData) :
  lookup q (newTaskInputs st) = Some fd ->
  trim (f_title fd) = EmptyString ->
  tasks (addTask now q st) = tasks st
  /\ boards (addTask now q st) = boards st
  /\ activeBoardId (addTask now q st) = activeBoardId st
  /\ lookup q (errorMessages (addTask now q st)) = Some title_required.
Proof.
  intros Hfd Ht. unfold addTask. rewrite Hfd, Ht. simpl.
  repeat split. apply lookup_set_key_same.
Qed.

Lemma addTask_blank_title_rejected_witness :
  let st := mkStore [mkBoard "1" "My Matrix"]%string "1"%string
              [sample_task "a" "1" "Q1" 0 []]%string None []
              [("Q1"%string, blank_form)] in
  lookup "Q1"%string (newTaskInputs st) = Some blank_form
  /\ trim (f_title blank_form) = EmptyString
  /\ tasks (addTask 5 "Q1"%string st) = tasks st.
Proof.
  intro st. split; [reflexivity | split; [reflexivity |]].
  apply (addTask_blank_title_rejected 5 "Q1"%string st blank_form);
    reflexivity.
Defined.

(** ** Stable insertion sort *)

Section SortFacts.
Context {A : Type} (key : A -> Z).

Lemma ins_perm (x : A) l : Permutation (ins key x l) (x :: l).
Proof.
  induction l as [|y l IH]; simpl.
  - reflexivity.
  - destruct (key x <=? key y); [reflexivity|].
    rewrite IH. apply perm_swap.
Qed.

Lemma sort_by_perm l : Permutation (sort_by key l) l.
Proof.
  induction l as [|x l IH]; simpl.
  - constructor.
  - rewrite ins_perm. constructor. exact IH.
Qed.

Lemma ins_hdrel (R : A -> A -> Prop) z x l :
  HdRel R z l -> R z x -> HdRel R z (ins key x l).
Proof.
  destruct l as [|y l]; simpl; intros H Hzx; [constructor; exact Hzx|].
  destruct (key x <=? key y); [constructor; exact Hzx|].
  inversion H; subst. constructor. assumption.
Qed.
End SortFacts.

Lemma map_ins {A B} (f : A -> B) (key : B -> Z) x l :
  map f (ins (fun a => key (f a)) x l) = ins key (f x) (map f l).
Proof.
  induction l as [|y l IH]; simpl.
  - reflexivity.
  - destruct (key (f x) <=? key (f y)); simpl; [reflexivity|].
    rewrite IH. reflexivity.
Qed.

Lemma map_sort_by {A B} (f : A -> B) (key : B -> Z) l :
  map f (sort_by (fun a => key (f a)) l) = sort_by key (map f l).
Proof.
  induction l as [|x l IH]; simpl.
  - reflexivity.
  - rewrite map_ins, IH. reflexivity.
Qed.

Lemma map_filter_comp {A B} (f : A -> B) (P : B -> bool) l :
  map f (filter (fun a => P (f a)) l) = filter P (map f l).
Proof.
  induction l as [|x l IH]; simpl.
  - reflexivity.
  - destruct (P (f x)); simpl; rewrite IH; reflexivity.
Qed.

Lemma map_snd_combine_seq {B} k (ts : list B) :
  map snd (combine (seq k (List.length ts)) ts) = ts.
Proof.
  revert k; induction ts as [|t ts IH]; intro k; simpl.
  - reflexivity.
  - rewrite IH. reflexivity.
Qed.

Lemma StronglySorted_filter {A} (R : A -> A -> Prop) (P : A -> bool) l :
  StronglySorted R l -> StronglySorted R (filter P l).
Proof.
  induction l as [|x l IH]; simpl; intro H.
  - constructor.
  - apply StronglySorted_inv in H as [Hl Hx].
    destruct (P x); [|auto].
    constructor; [auto|].
    rewrite Forall_forall in *. intros y Hy.
    apply filter_In in Hy as [Hy _]. auto.
Qed.

Lemma combine_seq_increasing {B} k (ts : list B) :
  StronglySorted (fun a b : nat * B => (fst a < fst b)%nat)
    (combine (seq k (List.length ts)) ts).
Proof.
  revert k; induction ts as [|t ts IH]; intro k; simpl.
  - constructor.
  - constructor; [apply IH|].
    rewrite Forall_forall. intros [i u] Hin. simpl.
    apply in_combine_l, in_seq in Hin. lia.
Qed.

(** ** C1: rendered positions are strictly ordered *)

Lemma render_lt_trans : Relations_1.Transitive render_lt.
Proof. unfold render_lt. intros a b c Hab Hbc. lia. Qed.

Lemma ins_render_sorted x m :
  Sorted render_lt m ->
  Forall (fun y => (fst x < fst y)%nat) m ->
  Sorted render_lt (ins render_key x m).
Proof.
  induction m as [|y m IH]; simpl; intros Hs Hf.
  - repeat constructor.
  - apply Sorted_inv in Hs as [Hm Hhd].
    apply Forall_cons_iff in Hf as [Hxy Hf].
    unfold render_key at 1 2.
    destruct (order (snd x) <=? order (snd y)) eqn:E.
    + constructor; [constructor; assumption|].
      constructor. unfold render_lt. lia.
    + constructor; [apply IH; assumption|].
      apply ins_hdrel; [assumption|]. unfold render_lt. lia.
Qed.

Lemma sort_render_sorted l :
  StronglySorted (fun a b : nat * Task => (fst a < fst b)%nat) l ->
  Sorted render_lt (sort_by render_key l).
Proof.
  induction l as [|x l IH]; simpl; intro H.
  - constructor.
  - apply StronglySorted_inv in H as [Hl Hx].
    apply ins_render_sorted; [auto|].
    rewrite Forall_forall in *. intros y Hy.
    apply Hx. eapply Permutation_in; [apply sort_by_perm | exact Hy].
Qed.

(** C1: in every store state (so in every reachable one, whatever tag
    filter is active), the tasks [getTasksForQuadrant] shows for a
    (board, quadrant) partition are the partition's tasks sorted by
    [order] with ties broken by storage position: the rendered list is a
    permutation of the displayed tasks and is strictly increasing in the
    key ([order], storage index), so no two tasks share a rendered
    position. *)
Theorem quadrant_render_strict (st : Store) (q : string) :
  let L := sort_by render_key (displayed_indexed st q) in
  map snd L = getTasksForQuadrant st q
  /\ Permutation L (displayed_indexed st q)
  /\ StronglySorted render_lt L.
Proof.
  intro L. split; [|split].
  - unfold L, render_key, getTasksForQuadrant, displayed_indexed.
    rewrite (map_sort_by snd order).
    rewrite (map_filter_comp snd (tag_filter_ok (activeTagFilter st))).
    rewrite (map_filter_comp snd (in_partition (activeBoardId st) q)).
    unfold indexed. rewrite map_snd_combine_seq. reflexivity.
  - apply sort_by_perm.
  - apply Sorted_StronglySorted; [apply render_lt_trans|].
    apply sort_render_sorted.
    unfold displayed_indexed. do 2 apply StronglySorted_filter.
    apply combine_seq_increasing.
Qed.

(** ** JS [trim] *)

Lemma ltrim_shape s :
  ltrim s = EmptyString \/ exists c y, ltrim s = String c y /\ is_ws c = false.
Proof.
  induction s as [|c s IH]; simpl; [left; reflexivity|].
  destruct (is_ws c) eqn:E; [exact IH|right; eauto].
Qed.

Lemma rtrim_non_ws c y :
  is_ws c = false -> rtrim (String c y) = String c (rtrim y).
Proof.
  intro E. simpl. destruct (rtrim y); [rewrite E|]; reflexivity.
Qed.

Lemma rtrim_idem s : rtrim (rtrim s) = rtrim s.
Proof.
  induction s as [|c s IH]; simpl; [reflexivity|].
  destruct (rtrim s) as [|c' r] eqn:E.
  - destruct (is_ws c) eqn:W; simpl; [reflexivity|rewrite W; reflexivity].
  - change (match rtrim (String c' r) with
            | EmptyString => if is_ws c then EmptyString else String c EmptyString
            | r0 => String c r0
            end = String c (String c' r)).
    rewrite IH. reflexivity.
Qed.

Lemma trim_idem s : trim (trim s) = trim s.
Proof.
  unfold trim. destruct (ltrim_shape s) as [E|(c & y & E & W)]; rewrite E.
  - reflexivity.
  - rewrite (rtrim_non_ws c y W). simpl ltrim. rewrite W.
    rewrite <- (rtrim_non_ws c y W). apply rtrim_idem.
Qed.

Lemma parseTags_trimmed_nonempty s :
  Forall (fun tag => tag <> EmptyString /\ trim tag = tag) (parseTags s).
Proof.
  unfold parseTags. rewrite Forall_forall. intros tag Hin.
  apply filter_In in Hin as [Hin Hne].
  apply in_map_iff in Hin as (raw & <- & _).
  split; [|apply trim_idem].
  intro E. rewrite E in Hne. discriminate.
Qed.

(** ** C8: tag parsing *)

(** C8 (counterexample): adding a task with the tag string ["a, a"] stores
    the tag ["a"] twice; the tags are not de-duplicated. *)
Lemma addTask_tags_not_deduplicated :
  map tags (tasks (addTask 7 "Q1"%string (empty_store_with "Q1"%string dup_tags_form)))
    = [["a"%string; "a"%string]]
  /\ ~ NoDup (List.concat (map tags (tasks (addTask 7 "Q1"%string
                       (empty_store_with "Q1"%string dup_tags_form))))).
Proof.
  split; [reflexivity|].
  vm_compute. intro H. inversion H as [|x l Hx Hl]. apply Hx. left. reflexivity.
Qed.

(** C8 (amended): an add or edit command with a non-blank title sets the
    task's tags to the comma-separated entries of the tag string, each
    trimmed, empty entries dropped, in input order and with duplicates
    kept; every stored tag is non-empty and already trimmed. *)
Theorem tags_are_trimmed_nonempty_entries (now : Z) (q taskId : string)
    (st : Store) (fd : TaskFormData) :
  is_empty (trim (f_title fd)) = false ->
  parseTags (f_tags fd)
    = filter (fun tag => negb (is_empty tag)) (map trim (split_comma (f_tags fd)))
  /\ Forall (fun tag => tag <> EmptyString /\ trim tag = tag) (parseTags (f_tags fd))
  /\ (lookup q (newTaskInputs st) = Some fd ->
      exists nt, tasks (addTask now q st) = tasks st ++ [nt]
                 /\ tags nt = parseTags (f_tags fd))
  /\ map tags (tasks (updateTask taskId fd st))
     = map (fun t => if String.eqb (id t) taskId then parseTags (f_tags fd)
                     else tags t) (tasks st).
Proof.
  intro Hne. split; [reflexivity|]. split; [apply parseTags_trimmed_nonempty|].
  split.
  - intro Hfd. unfold addTask. rewrite Hfd, Hne. eexists. split; reflexivity.
  - unfold updateTask. rewrite Hne. simpl. rewrite map_map.
    apply map_ext. intro t. destruct (String.eqb (id t) taskId); reflexivity.
Qed.

Lemma tags_are_trimmed_nonempty_entries_witness :
  is_empty (trim (f_title dup_tags_form)) = false
  /\ parseTags (f_tags dup_tags_form) = ["a"%string; "a"%string].
Proof.
  split; [reflexivity|].
  destruct (tags_are_trimmed_nonempty_entries 7 "Q1"%string "x"%string
              (empty_store_with "Q1"%string dup_tags_form) dup_tags_form
              eq_refl) as [E _].
  rewrite E. reflexivity.
Defined.

(** ** C7: search *)

Lemma prefix_spec q s : String.prefix q s = true <-> exists b, s = (q ++ b)%string.
Proof.
  revert s; induction q as [|c q IH]; intro s.
  - split; intros _; [exists s; reflexivity | destruct s; reflexivity].
  - destruct s as [|c' s]; simpl.
    + split; [discriminate | intros (b & E); discriminate].
    + destruct (ascii_dec c c') as [<-|Hne].
      * rewrite IH. split; intros (b & E); exists b; [rewrite E | injection E as E]; auto.
      * split; [discriminate|]. intros (b & E). injection E as E1 _. congruence.
Qed.

Lemma includes_spec s q :
  includes s q = true <-> exists a b, s = (a ++ q ++ b)%string.
Proof.
  induction s as [|c s IH].
  - change (includes EmptyString q) with (String.prefix q EmptyString || false)%bool.
    rewrite orb_true_iff, prefix_spec. split.
    + intros [(b & E) | H]; [exists EmptyString, b; exact E | discriminate].
    + intros (a & b & E). left. exists b. destruct a; [exact E | discriminate].
  - change (includes (String c s) q)
      with (String.prefix q (String c s) || includes s q)%bool.
    rewrite orb_true_iff, prefix_spec, IH. split.
    + intros [(b & E) | (a & b & E)].
      * exists EmptyString, b. exact E.
      * exists (String c a), b. rewrite E. reflexivity.
    + intros (a & b & E). destruct a as [|c' a].
      * left. exists b. exact E.
      * right. exists a, b. injection E as _ E. exact E.
Qed.

Lemma search_matches_spec q t :
  search_matches (toLowerCase q) t = true
  <-> ci_contains (title t) q \/ Exists (fun tag => ci_contains tag q) (tags t).
Proof.
  unfold search_matches, ci_contains.
  rewrite orb_true_iff, includes_spec, existsb_exists, Exists_exists.
  split; (intros [H | (tag & Hin & H)]; [left; exact H | right; exists tag;
    split; [exact Hin | apply includes_spec; exact H]]).
Qed.

Lemma map_task_search q bs ts :
  map r_task (search q bs ts)
  = if is_empty (trim q) then [] else filter (search_matches (toLowerCase q)) ts.
Proof.
  unfold search. destruct (is_empty (trim q)); [reflexivity|].
  rewrite map_map. apply map_id.
Qed.

(** C7 (counterexample): the query [" "] (one space) occurs in the title
    "Project plan" of a stored task, case-insensitively, yet the search
    returns no result at all. *)
Lemma search_blank_query_no_results :
  let t := mkTask "t1" "1" "Q2" "Project plan" 0 false None 0 None None [] RNone in
  In t [t] /\ ci_contains (title t) " "%string
  /\ ~ In t (map r_task (search " "%string [mkBoard "1" "My Matrix"] [t])).
Proof.
  intro t. split; [left; reflexivity|]. split.
  - exists "project"%string, "plan"%string. reflexivity.
  - simpl. tauto.
Qed.

(** C7 (amended): for a query that is not empty after trimming, the search
    returns, in storage order and over all boards and both active and
    completed tasks, exactly the tasks whose title or some tag contains the
    query case-insensitively; an empty or whitespace-only query returns no
    results. *)
Theorem search_exact_matches (q : string) (bs : list Board) (ts : list Task) :
  map r_task (search q bs ts)
  = (if is_empty (trim q) then [] else filter (search_matches (toLowerCase q)) ts)
  /\ (forall t, search_matches (toLowerCase q) t = true
        <-> ci_contains (title t) q \/ Exists (fun tag => ci_contains tag q) (tags t))
  /\ (forall r, In r (search q bs ts) -> r_isArchived r = completed (r_task r)).
Proof.
  split; [apply map_task_search|]. split; [intro; apply search_matches_spec|].
  intros r Hr. unfold search in Hr. destruct (is_empty (trim q)); [contradiction|].
  apply in_map_iff in Hr as (t & <- & _). reflexivity.
Qed.

Example search_proj_example :
  map (fun r => (id (r_task r), r_isArchived r))
    (search "proj"%string [mkBoard "1" "Home"; mkBoard "2" "Work"]
       [mkTask "a" "1" "Q1" "Project plan" 0 false None 0 None None [] RNone;
        mkTask "b" "2" "Q3" "Call" 0 true (Some 9) 0 None None ["project"] RNone;
        mkTask "c" "1" "Q2" "Groceries" 0 false None 1 None None ["home"] RNone])%string
  = [("a"%string, false); ("b"%string, true)].
Proof. reflexivity. Qed.

(** ** C5: deleting a board *)

(** C5: when the deleted board exists and the active board is one of the
    boards (as it is whenever the board list is non-empty: loading, board
    creation and deletion all select an existing board), deleting the board
    removes exactly the tasks with its id; if it was active, the first
    remaining board becomes active, or, when none remains, the single
    default board is created and made active; the board list is never
    empty afterwards. *)
Theorem deleteBoard_cascade (bid : string) (st : Store) :
  In bid (map b_id (boards st)) ->
  In (activeBoardId st) (map b_id (boards st)) ->
  let st' := deleteBoard bid st in
  tasks st' = filter (fun t => negb (String.eqb (boardId t) bid)) (tasks st)
  /\ (forall t, In t (tasks st') -> boardId t <> bid)
  /\ (activeBoardId st = bid ->
        match filter (fun b => negb (String.eqb (b_id b) bid)) (boards st) with
        | b :: _ => boards st' = filter (fun b => negb (String.eqb (b_id b) bid)) (boards st)
                    /\ activeBoardId st' = b_id b
        | [] => boards st' = [defaultBoard] /\ activeBoardId st' = b_id defaultBoard
        end)
  /\ (activeBoardId st <> bid -> activeBoardId st' = activeBoardId st)
  /\ boards st' <> []
  /\ In (activeBoardId st') (map b_id (boards st')).
Proof.
  intros _ Hact st'. unfold st', deleteBoard.
  set (ub := filter (fun b => negb (String.eqb (b_id b) bid)) (boards st)).
  split; [destruct (String.eqb (activeBoardId st) bid), ub; reflexivity|].
  split.
  - intros t Ht.
    assert (Ht' : In t (filter (fun t => negb (String.eqb (boardId t) bid)) (tasks st)))
      by (destruct (String.eqb (activeBoardId st) bid), ub; exact Ht).
    apply filter_In in Ht' as [_ Hne]. intro E. rewrite E, String.eqb_refl in Hne.
    discriminate.
  - destruct (String.eqb (activeBoardId st) bid) eqn:Ea.
    + apply String.eqb_eq in Ea.
      split; [intros _; destruct ub; simpl; auto|].
      split; [intro; contradiction|].
      destruct ub as [|b ub'] eqn:Eub; simpl.
      * split; [discriminate | left; reflexivity].
      * split; [discriminate | left; reflexivity].
    + apply String.eqb_neq in Ea.
      split; [intro; contradiction|]. split; [intros _; reflexivity|].
      apply in_map_iff in Hact as (b & Hb & Hin).
      assert (Hub : In b ub).
      { apply filter_In. split; [exact Hin|]. rewrite Hb.
        apply String.eqb_neq in Ea. rewrite Ea. reflexivity. }
      simpl. split; [destruct ub; [contradiction | discriminate]|].
      apply in_map_iff. exists b. split; assumption.
Qed.

Lemma deleteBoard_cascade_witness :
  let st := mkStore [mkBoard "1" "My Matrix"]%string "1"%string
              [sample_task "a" "1" "Q1" 0 []]%string None [] [] in
  In "1"%string (map b_id (boards st)) /\ boards (deleteBoard "1"%string st) = [defaultBoard].
Proof.
  intro st. split; [left; reflexivity|].
  destruct (deleteBoard_cascade "1"%string st (or_introl eq_refl) (or_introl eq_refl))
    as (_ & _ & H & _).
  destruct (H eq_refl) as [Hb _]. exact Hb.
Defined.

(** ** Unique ids and positions *)

Lemma NoDup_map_filter {A B} (f : A -> B) (P : A -> bool) l :
  NoDup (map f l) -> NoDup (map f (filter P l)).
Proof.
  induction l as [|x l IH]; simpl; intro H; [constructor|].
  inversion H as [|y m Hx Hl]; subst.
  destruct (P x); simpl; [|auto].
  constructor; [|auto].
  intro Hin. apply Hx. apply in_map_iff in Hin as (z & Ez & Hz).
  apply filter_In in Hz as [Hz _]. rewrite <- Ez. apply in_map. exact Hz.
Qed.

Lemma getTasksForQuadrant_ids_NoDup st q :
  NoDup (map id (tasks st)) -> NoDup (map id (getTasksForQuadrant st q)).
Proof.
  intro H. unfold getTasksForQuadrant.
  eapply Permutation_NoDup.
  - apply Permutation_map. symmetry. apply sort_by_perm.
  - do 2 apply NoDup_map_filter. exact H.
Qed.

Lemma findIndex_nth l k t :
  NoDup (map id l) -> nth_error l k = Some t -> findIndex (id t) l = Some k.
Proof.
  revert k; induction l as [|x l IH]; intros k Hnd Hk; [destruct k; discriminate|].
  inversion Hnd as [|y m Hx Hl]; subst. simpl.
  destruct k as [|k]; simpl in Hk.
  - injection Hk as <-. rewrite String.eqb_refl. reflexivity.
  - destruct (String.eqb (id x) (id t)) eqn:E.
    + apply String.eqb_eq in E. exfalso. apply Hx. rewrite E.
      apply in_map. eapply nth_error_In. exact Hk.
    + rewrite (IH k Hl Hk). reflexivity.
Qed.

Lemma nth_ids_distinct l i j a b :
  NoDup (map id l) -> nth_error l i = Some a -> nth_error l j = Some b ->
  i <> j -> id a <> id b.
Proof.
  intros Hnd Ha Hb Hij E.
  apply Hij. eapply NoDup_nth_error; [exact Hnd| |].
  - apply nth_error_Some. rewrite nth_error_map, Ha. discriminate.
  - rewrite !nth_error_map, Ha, Hb. simpl. rewrite E. reflexivity.
Qed.

Lemma find_task_id tid ts t : find_task tid ts = Some t -> id t = tid.
Proof.
  unfold find_task. intro H. apply find_some in H as [_ H].
  apply String.eqb_eq. exact H.
Qed.

(** ** C9: moving up or down within a quadrant *)

(** C9 (as the code behaves): for a store with unique task ids and a task
    shown at position [k] of its quadrant's displayed list (the
    order-sorted active tasks that pass the active tag filter), moving it
    up (down) exchanges the [order] values of the task and of the task
    displayed just above (below) it, and changes nothing else; at the top
    (bottom) of the displayed list the command leaves the store unchanged. *)
Theorem keyboard_move_swaps (st : Store) (taskId tq : string) (task : Task)
    (dir : Direction) (k : nat) :
  NoDup (map id (tasks st)) ->
  find_task taskId (tasks st) = Some task ->
  nth_error (getTasksForQuadrant st (quadrantId task)) k = Some task ->
  let QT := getTasksForQuadrant st (quadrantId task) in
  let st' := handleKeyboardMove taskId tq (Some dir) st in
  match neighbour dir k (List.length QT) with
  | Some j => exists nb, nth_error QT j = Some nb /\ id nb <> id task
                         /\ st' = with_tasks st (map (swap_orders task nb) (tasks st))
  | None => st' = st
  end.
Proof.
  intros Hnd Hfind Hk QT st'.
  assert (Hid : id task = taskId) by (eapply find_task_id; exact Hfind).
  assert (Hqt : NoDup (map id QT)) by (apply getTasksForQuadrant_ids_NoDup; exact Hnd).
  assert (Hidx : findIndex taskId QT = Some k)
    by (rewrite <- Hid; apply findIndex_nth; assumption).
  assert (Hlt : (k < List.length QT)%nat)
    by (apply nth_error_Some; unfold QT; rewrite Hk; discriminate).
  assert (Hswap : forall nb, id nb <> id task -> nth_error QT (Z.to_nat
            (match dir with Up => Z.of_nat k - 1 | Down => Z.of_nat k + 1 end)) = Some nb ->
            (0 <= (match dir with Up => Z.of_nat k - 1 | Down => Z.of_nat k + 1 end)
             < Z.of_nat (List.length QT)) ->
            st' = with_tasks st (map (swap_orders task nb) (tasks st))).
  { intros nb Hne Hnb Hrange. unfold st', handleKeyboardMove.
    rewrite Hfind. fold QT. rewrite Hidx.
    destruct Hrange as [H0 H1].
    apply Z.leb_le in H0. apply Z.ltb_lt in H1. rewrite H0, H1. simpl.
    rewrite Hnb. f_equal. apply map_ext. intro t. unfold swap_orders.
    rewrite Hid. reflexivity. }
  destruct dir; simpl.
  - destruct k as [|k'].
    + unfold st', handleKeyboardMove. rewrite Hfind. fold QT. rewrite Hidx.
      reflexivity.
    + destruct (nth_error QT k') as [nb|] eqn:Enb.
      2: { apply nth_error_None in Enb. lia. }
      exists nb. split; [reflexivity|].
      assert (Hne : id nb <> id task).
      { eapply nth_ids_distinct; [exact Hqt | exact Enb | exact Hk | lia]. }
      split; [exact Hne|]. apply Hswap; [exact Hne| |lia].
      replace (Z.to_nat (Z.of_nat (S k') - 1)) with k' by lia. exact Enb.
  - destruct (Nat.ltb (S k) (List.length QT)) eqn:Elt.
    + apply Nat.ltb_lt in Elt.
      destruct (nth_error QT (S k)) as [nb|] eqn:Enb.
      2: { apply nth_error_None in Enb. lia. }
      exists nb. split; [reflexivity|].
      assert (Hne : id nb <> id task).
      { eapply nth_ids_distinct; [exact Hqt | exact Enb | exact Hk | lia]. }
      split; [exact Hne|]. apply Hswap; [exact Hne| |lia].
      replace (Z.to_nat (Z.of_nat k + 1)) with (S k) by lia. exact Enb.
    + apply Nat.ltb_ge in Elt.
      unfold st', handleKeyboardMove. rewrite Hfind. fold QT. rewrite Hidx.
      replace (Z.of_nat k + 1 <? Z.of_nat (List.length QT)) with false
        by (symmetry; apply Z.ltb_ge; lia).
      rewrite andb_false_r. reflexivity.
Qed.

Lemma keyboard_move_swaps_witness :
  handleKeyboardMove "b"%string "Q1"%string (Some Up) two_task_store
  = with_tasks two_task_store
      (map (swap_orders (sample_task "b" "1" "Q1" 1 [])%string
                        (sample_task "a" "1" "Q1" 0 [])%string)
           (tasks two_task_store)).
Proof.
  pose proof (keyboard_move_swaps two_task_store "b"%string "Q1"%string
                (sample_task "b" "1" "Q1" 1 [])%string Up 1) as H.
  simpl in H.
  destruct H as (nb & Hnb & _ & E).
  - repeat constructor; simpl; intuition discriminate.
  - reflexivity.
  - reflexivity.
  - injection Hnb as <-. exact E.
Defined.

(** C9 (counterexample): with the tag filter [work] active, moving C up
    exchanges its order with A, the task displayed above it, not with B,
    its neighbour in the quadrant's order-sorted active list; and moving
    the hidden task B up leaves the store unchanged although A is above it
    in that list. *)
Lemma keyboard_move_uses_filtered_list :
  placement (handleKeyboardMove "C"%string "Q1"%string (Some Up) tagged_move_store)
  = [("A", "Q1", 2); ("B", "Q1", 1); ("C", "Q1", 0)]%string
  /\ handleKeyboardMove "C"%string "Q1"%string (Some Up) tagged_move_store
     <> with_tasks tagged_move_store
          (map (swap_orders (sample_task "C" "1" "Q1" 2 ["work"])%string
                            (sample_task "B" "1" "Q1" 1 [])%string)
               (tasks tagged_move_store))
  /\ handleKeyboardMove "B"%string "Q1"%string (Some Up) tagged_move_store
     = tagged_move_store.
Proof.
  split; [vm_compute; reflexivity|]. split.
  - intro H. apply (f_equal placement) in H. vm_compute in H. discriminate H.
  - vm_compute. reflexivity.
Qed.

(** ** C2: moving a task into another quadrant *)

Lemma filter_map_stable {A} (P : A -> bool) (U : A -> A) l :
  (forall u, In u l -> P (U u) = P u /\ (P u = true -> U u = u)) ->
  filter P (map U l) = filter P l.
Proof.
  induction l as [|x l IH]; simpl; intro H; [reflexivity|].
  destruct (H x (or_introl eq_refl)) as [E1 E2].
  rewrite E1. destruct (P x) eqn:Px.
  - rewrite (E2 eq_refl). f_equal. apply IH. intros u Hu. apply H. right. exact Hu.
  - apply IH. intros u Hu. apply H. right. exact Hu.
Qed.

Lemma in_partition_with_order b q t o :
  in_partition b q (with_order t o) = in_partition b q t.
Proof. reflexivity. Qed.

Lemma in_partition_quadrant b q t :
  in_partition b q t = true -> quadrantId t = q.
Proof.
  unfold in_partition. intro H. apply andb_prop in H as [H _].
  apply andb_prop in H as [_ H]. apply String.eqb_eq. exact H.
Qed.

Lemma in_partition_other_quadrant b q t q' :
  quadrantId t = q' -> q' <> q -> in_partition b q t = false.
Proof.
  intros Hq Hne. destruct (in_partition b q t) eqn:E; [|reflexivity].
  apply in_partition_quadrant in E. congruence.
Qed.

Lemma source_sequence_ids_NoDup st taskId src :
  NoDup (map id (tasks st)) -> NoDup (map id (source_sequence st taskId src)).
Proof.
  intro H. unfold source_sequence. eapply Permutation_NoDup.
  - apply Permutation_map. symmetry. apply sort_by_perm.
  - apply NoDup_map_filter. exact H.
Qed.

(** C2 (amended): for a store with unique task ids, dropping the task
    [taskId] from the source quadrant [src] into a different quadrant [tgt]
    at a position [i] of [tgt]'s displayed list holding the task [X]:
    the moved task goes to [tgt] with [X]'s order; every other active task
    of [tgt] on the active board whose order is at least that value is
    incremented by 1 and the rest of [tgt] keep their order; the remaining
    active tasks of [src] are renumbered 0..n-1 in their previous sequence
    [source_sequence]; every other task is unchanged.  In particular,
    dropping A (order 0) into [B(0), C(1)] at index 1 gives B(0), A(1),
    C(2), and A's old quadrant is compacted. *)
Theorem handleDrop_cross_quadrant (st : Store) (taskId src tgt : string)
    (A X : Task) (i : nat) :
  NoDup (map id (tasks st)) ->
  is_empty taskId = false ->
  find_task taskId (tasks st) = Some A ->
  src <> tgt ->
  nth_error (getTasksForQuadrant st tgt) i = Some X ->
  let st' := handleDrop taskId (Some taskId) (Some src) tgt (Some i) st in
  let b := activeBoardId st in
  List.length (tasks st') = List.length (tasks st)
  /\ (forall n t, nth_error (tasks st) n = Some t ->
      exists t', nth_error (tasks st') n = Some t'
        /\ (id t = taskId -> t' = with_quadrant_order t tgt (order X))
        /\ (id t <> taskId -> in_partition b tgt t = true ->
              t' = if order X <=? order t then with_order t (order t + 1) else t)
        /\ (forall k, nth_error (source_sequence st taskId src) k = Some t ->
              t' = with_order t (Z.of_nat k))
        /\ (id t <> taskId -> in_partition b tgt t = false ->
              in_partition b src t = false -> t' = t))
  /\ placement (handleDrop "A"%string (Some "A"%string) (Some "Q2"%string)
                  "Q1"%string (Some 1%nat) cross_store)
     = [("A", "Q1", 1); ("D", "Q2", 0); ("B", "Q1", 0); ("C", "Q1", 2)]%string.
Proof.
  intros Hnd Hne Hfind Hst HX st' b.
  assert (HidA : id A = taskId) by (eapply find_task_id; exact Hfind).
  set (T := getTasksForQuadrant st tgt) in *.
  assert (Hi : Nat.leb (List.length T) i = false).
  { apply Nat.leb_gt. apply nth_error_Some. rewrite HX. discriminate. }
  set (U := fun t =>
         if String.eqb (id t) taskId then with_quadrant_order t tgt (order X)
         else if in_partition b tgt t
         then (if order X <=? order t then with_order t (order t + 1) else t)
         else t).
  set (P := fun u => (in_partition b src u && negb (String.eqb (id u) taskId))%bool).
  assert (HS : filter P (map U (tasks st)) = filter P (tasks st)).
  { apply filter_map_stable. intros u _. unfold U, P.
    destruct (String.eqb (id u) taskId) eqn:Eu; simpl.
    - rewrite Eu. simpl. rewrite !andb_false_r. split; [reflexivity | discriminate].
    - destruct (in_partition b tgt u) eqn:Et.
      + assert (Hsrc : in_partition b src u = false)
          by (apply (in_partition_other_quadrant b src u tgt);
              [exact (in_partition_quadrant b tgt u Et) | congruence]).
        destruct (order X <=? order u); rewrite ?in_partition_with_order;
          simpl; rewrite ?Eu, Hsrc; split; [reflexivity|discriminate|reflexivity|discriminate].
      + split; [|intros _]; simpl; rewrite ?Eu, ?Et; reflexivity. }
  set (S := source_sequence st taskId src).
  set (F := fun t =>
         if in_partition b src t then
           match findIndex (id t) (sort_by order (filter P (map U (tasks st)))) with
           | Some k => with_order t (Z.of_nat k)
           | None => t
           end
         else t).
  assert (Hst' : tasks st' = map F (map U (tasks st))).
  { unfold st', handleDrop. rewrite Hne, Hfind. fold T. rewrite Hi, HX. reflexivity. }
  split; [|split].
  - rewrite Hst', !length_map. reflexivity.
  - intros n t Hn. exists (F (U t)).
    split; [rewrite Hst', !nth_error_map, Hn; reflexivity|].
    assert (HFid : forall t0, in_partition b src t0 = false -> F t0 = t0)
      by (intros t0 E; unfold F; rewrite E; reflexivity).
    split; [|split; [|split]].
    + intro E. unfold U. rewrite E, String.eqb_refl. apply HFid.
      apply (in_partition_other_quadrant b src _ tgt); [reflexivity | congruence].
    + intros E Et. apply String.eqb_neq in E. unfold U. rewrite E, Et.
      assert (Hsrc : in_partition b src t = false)
        by (apply (in_partition_other_quadrant b src t tgt);
            [exact (in_partition_quadrant b tgt t Et) | congruence]).
      destruct (order X <=? order t); apply HFid;
        rewrite ?in_partition_with_order; exact Hsrc.
    + intros k Hk.
      assert (Hin : In t (filter P (tasks st))).
      { eapply Permutation_in; [apply sort_by_perm|]. eapply nth_error_In. exact Hk. }
      apply filter_In in Hin as [_ HP]. unfold P in HP.
      apply andb_prop in HP as [Hsrc Hid]. apply negb_true_iff in Hid.
      assert (Htgt : in_partition b tgt t = false)
        by (apply (in_partition_other_quadrant b tgt t src);
            [exact (in_partition_quadrant b src t Hsrc) | congruence]).
      assert (HU : U t = t) by (unfold U; rewrite Hid, Htgt; reflexivity).
      rewrite HU. unfold F. rewrite Hsrc, HS.
      rewrite (findIndex_nth _ k t); [reflexivity | |exact Hk].
      apply source_sequence_ids_NoDup. exact Hnd.
    + intros E Et Es. apply String.eqb_neq in E. unfold U. rewrite E, Et.
      apply HFid. exact Es.
  - vm_compute. reflexivity.
Qed.

Lemma handleDrop_cross_quadrant_witness :
  List.length (tasks (handleDrop "A"%string (Some "A"%string) (Some "Q2"%string)
                        "Q1"%string (Some 1%nat) cross_store)) = 4%nat.
Proof.
  destruct (handleDrop_cross_quadrant cross_store "A"%string "Q2"%string "Q1"%string
              (sample_task "A" "1" "Q2" 0 [])%string
              (sample_task "C" "1" "Q1" 1 [])%string 1) as [Hlen _].
  - repeat constructor; simpl; intuition discriminate.
  - reflexivity.
  - reflexivity.
  - discriminate.
  - reflexivity.
  - exact Hlen.
Defined.

(** C2 (counterexample): dropping C (order 2) at index 0 of its own
    quadrant [A(0), B(1), C(2)]: C takes A's order 0, but A, whose order 0
    is at least that value, is not incremented: the compaction of the
    (same) source quadrant renumbers A and B to 0 and 1, leaving A and C
    both at order 0. *)
Lemma handleDrop_same_quadrant_no_room :
  placement (handleDrop "C"%string (Some "C"%string) (Some "Q1"%string)
               "Q1"%string (Some 0%nat) same_store)
  = [("A", "Q1", 0); ("B", "Q1", 1); ("C", "Q1", 0)]%string
  /\ ~ (forall t t', In t (tasks same_store) -> id t <> "C"%string ->
          In t' (tasks (handleDrop "C"%string (Some "C"%string) (Some "Q1"%string)
                          "Q1"%string (Some 0%nat) same_store)) ->
          id t' = id t -> order t' = order t + 1).
Proof.
  split; [vm_compute; reflexivity|].
  intro H.
  specialize (H (sample_task "A" "1" "Q1" 0 [])%string
                (sample_task "A" "1" "Q1" 0 [])%string).
  assert (E : 0 = 0 + 1).
  { apply H; [left; reflexivity | discriminate | vm_compute; left; reflexivity
             | reflexivity]. }
  discriminate.
Qed.

(** ** C10 and C6: the append helper [getNextOrder] *)

Lemma list_max_ge x xs : x <= list_max x xs /\ Forall (fun y => y <= list_max x xs) xs.
Proof.
  unfold list_max. revert x; induction xs as [|y xs IH]; intro x; simpl.
  - split; [lia | constructor].
  - destruct (IH (Z.max x y)) as [H1 H2]. split; [lia|].
    constructor; [lia | exact H2].
Qed.

Lemma list_max_in x xs : list_max x xs = x \/ In (list_max x xs) xs.
Proof.
  unfold list_max. revert x; induction xs as [|y xs IH]; intro x; simpl; [left; reflexivity|].
  destruct (IH (Z.max x y)) as [E|E]; [|right; right; exact E].
  rewrite E. destruct (Z.max_spec x y) as [[_ M]|[_ M]]; rewrite M; auto.
Qed.

Lemma getTasksForQuadrant_In st q t :
  In t (getTasksForQuadrant st q)
  <-> In t (tasks st) /\ in_partition (activeBoardId st) q t = true
      /\ tag_filter_ok (activeTagFilter st) t = true.
Proof.
  unfold getTasksForQuadrant. split.
  - intro H. eapply Permutation_in in H; [|apply sort_by_perm].
    apply filter_In in H as [H Hf]. apply filter_In in H as [H Hp]. auto.
  - intros (H & Hp & Hf). eapply Permutation_in; [symmetry; apply sort_by_perm|].
    apply filter_In. split; [apply filter_In; split|]; assumption.
Qed.

Lemma getNextOrder_bounds st q :
  (forall t, In t (getTasksForQuadrant st q) -> order t < getNextOrder st q)
  /\ (getTasksForQuadrant st q = [] -> getNextOrder st q = 0)
  /\ (getTasksForQuadrant st q <> [] ->
      exists t, In t (getTasksForQuadrant st q) /\ getNextOrder st q = order t + 1).
Proof.
  unfold getNextOrder.
  destruct (getTasksForQuadrant st q) as [|t0 ts] eqn:E; simpl.
  - split; [contradiction|]. split; [reflexivity|]. intro H; contradiction.
  - destruct (list_max_ge (order t0) (map order ts)) as [H1 H2].
    split; [|split; [discriminate|intros _]].
    + intros t [<-|Ht]; [lia|].
      rewrite Forall_forall in H2. specialize (H2 (order t) (in_map _ _ _ Ht)). lia.
    + destruct (list_max_in (order t0) (map order ts)) as [M|M].
      * exists t0. split; [left; reflexivity | lia].
      * apply in_map_iff in M as (t & Et & Ht).
        exists t. split; [right; exact Ht | lia].
Qed.

(** C10: [getNextOrder] computes max(order)+1 (or 0) over the displayed
    list of the quadrant, which holds the active tasks of the active board
    in that quadrant that pass the tag filter (those carrying the filtered
    tag when a filter is set); so in the store [filtered_store], with the
    filter [work] active, the task added to Q1 gets order 1 while the
    untagged active task X of Q1 has order 5. *)
Theorem next_order_over_filtered_list :
  (forall st q t,
     In t (getTasksForQuadrant st q)
     <-> In t (tasks st) /\ in_partition (activeBoardId st) q t = true
         /\ tag_filter_ok (activeTagFilter st) t = true)
  /\ (forall st q,
       (forall t, In t (getTasksForQuadrant st q) -> order t < getNextOrder st q)
       /\ (getTasksForQuadrant st q = [] -> getNextOrder st q = 0)
       /\ (getTasksForQuadrant st q <> [] ->
           exists t, In t (getTasksForQuadrant st q) /\ getNextOrder st q = order t + 1))
  /\ exists st nt x,
       activeTagFilter st = Some "work"%string
       /\ tasks (addTask 9 "Q1"%string st) = tasks st ++ [nt]
       /\ In x (tasks st) /\ in_partition (activeBoardId st) "Q1"%string x = true
       /\ has_tag "work"%string x = false
       /\ quadrantId nt = "Q1"%string /\ completed nt = false
       /\ order nt <= order x.
Proof.
  split; [exact getTasksForQuadrant_In|]. split; [exact getNextOrder_bounds|].
  exists filtered_store.
  eexists. exists (sample_task "X" "1" "Q1" 5 [])%string.
  split; [reflexivity|]. split; [reflexivity|].
  split; [left; reflexivity|]. vm_compute. repeat split; congruence.
Qed.

(** Without a tag filter, [restoreTask] does append: the restored task gets
    an order above every other active task of its quadrant on the active
    board. *)
Lemma restore_appends_without_filter (st : Store) (taskId : string) (task : Task) :
  activeTagFilter st = None ->
  find_task taskId (tasks st) = Some task ->
  let q := quadrantId task in
  let st' := restoreTask taskId st in
  (forall t, In t (tasks st') -> id t = taskId ->
     completed t = false /\ completedAt t = None /\ order t = getNextOrder st q)
  /\ (forall t, In t (tasks st') -> id t <> taskId ->
        in_partition (activeBoardId st) q t = true -> order t < getNextOrder st q).
Proof.
  intros Hf Hfind q st'.
  assert (Hst' : exists R, tasks st' = map R (tasks st)
            /\ forall u, R u = if String.eqb (id u) taskId then
                 mkTask (id u) (boardId u) (quadrantId u) (title u) (createdAt u)
                   false None (getNextOrder st q) (dueDate u) (reminderAt u)
                   (tags u) (recurrence u) else u).
  { unfold st', restoreTask. rewrite Hfind. eexists. split; [reflexivity|].
    intro u. reflexivity. }
  destruct Hst' as (R & Et & HR).
  split; intros t Ht Hid; rewrite Et in Ht; apply in_map_iff in Ht as (u & <- & Hu);
    rewrite HR in *; destruct (String.eqb (id u) taskId) eqn:E.
  - repeat split.
  - simpl in Hid. apply String.eqb_eq in Hid. congruence.
  - simpl in Hid. apply String.eqb_eq in E. contradiction.
  - intro Hp. apply (proj1 (getNextOrder_bounds st q)).
    apply getTasksForQuadrant_In. rewrite Hf. repeat split; assumption.
Qed.

(** C6 (code_bug): in [filtered_store] (tag filter [work] active), restoring
    the completed task R of Q1 gives it order 1, computed over the tasks
    tagged [work] only; the untagged active task X keeps order 5, so in the
    quadrant's full sorted active list R lands between Y and X, not at the
    end. *)
Theorem restore_not_last_under_tag_filter :
  map (fun t => (id t, order t, completed t))
    (getTasksForQuadrant
       (with_tag_filter (restoreTask "R"%string filtered_store) None) "Q1"%string)
  = [("Y", 0, false); ("R", 1, false); ("X", 5, false)]%string.
Proof. vm_compute. reflexivity. Qed.

(** ** The JS calendar (ECMA-262 day arithmetic) *)

Lemma InLeapYear_range y : 0 <= InLeapYear y <= 1.
Proof.
  unfold InLeapYear.
  destruct (negb (y mod 4 =? 0)), (negb (y mod 100 =? 0)), (negb (y mod 400 =? 0)); lia.
Qed.

Lemma DayFromYear_succ y : DayFromYear (y + 1) = DayFromYear y + DaysInYear y.
Proof.
  unfold DaysInYear, InLeapYear.
  destruct (y mod 4 =? 0) eqn:E4; destruct (y mod 100 =? 0) eqn:E100;
    destruct (y mod 400 =? 0) eqn:E400; cbn [negb];
    rewrite ?Z.eqb_eq, ?Z.eqb_neq in *; unfold DayFromYear;
    Z.div_mod_to_equations; lia.
Qed.

Lemma DayFromYear_lt a b : a < b -> DayFromYear (a + 1) <= DayFromYear b.
Proof. unfold DayFromYear. intro. Z.div_mod_to_equations. lia. Qed.

Lemma YearFromDay_spec d :
  DayFromYear (YearFromDay d) <= d < DayFromYear (YearFromDay d + 1).
Proof.
  assert (Hlo : DayFromYear (1970 + (400 * d) / 146097 - 1) <= d)
    by (unfold DayFromYear; Z.div_mod_to_equations; lia).
  assert (Hhi : d < DayFromYear (1970 + (400 * d) / 146097 + 2))
    by (unfold DayFromYear; Z.div_mod_to_equations; lia).
  unfold YearFromDay.
  set (y0 := 1970 + (400 * d) / 146097) in *.
  destruct (d <? DayFromYear y0) eqn:E1; [apply Z.ltb_lt in E1|apply Z.ltb_ge in E1].
  - replace (y0 - 1 + 1) with y0 by lia. lia.
  - destruct (DayFromYear (y0 + 1) <=? d) eqn:E2;
      [apply Z.leb_le in E2|apply Z.leb_gt in E2].
    + replace (y0 + 1 + 1) with (y0 + 2) by lia. lia.
    + lia.
Qed.

Lemma YearFromDay_unique y d :
  DayFromYear y <= d < DayFromYear (y + 1) -> YearFromDay d = y.
Proof.
  intro H. destruct (YearFromDay_spec d) as [H1 H2].
  destruct (Z.lt_trichotomy (YearFromDay d) y) as [Hlt|[Heq|Hgt]]; [|exact Heq|].
  - apply DayFromYear_lt in Hlt. lia.
  - apply DayFromYear_lt in Hgt. lia.
Qed.

(** Case analysis on the month table and evaluation of its entries. *)
Ltac split_month_ifs :=
  repeat match goal with
         | |- context [if ?c then _ else _] =>
             destruct c eqn:?; rewrite ?Z.ltb_lt, ?Z.ltb_ge in *
         end.

Ltac month_start_simpl :=
  try match goal with
      | |- context [month_start (?a + 1) _] =>
          let v := eval vm_compute in (a + 1) in change (a + 1) with v
      end;
  cbn -[Z.add] in *.

Lemma MonthFromDayInYear_spec dy leap :
  0 <= leap <= 1 -> 0 <= dy < 365 + leap ->
  let m := MonthFromDayInYear dy leap in
  0 <= m <= 11 /\ month_start m leap <= dy < month_start (m + 1) leap.
Proof.
  intros Hl Hd. unfold MonthFromDayInYear. cbv zeta.
  split_month_ifs; month_start_simpl; lia.
Qed.

Lemma MonthFromDayInYear_unique m dy leap :
  0 <= leap <= 1 -> 0 <= m <= 11 ->
  month_start m leap <= dy < month_start (m + 1) leap ->
  MonthFromDayInYear dy leap = m.
Proof.
  intros Hl Hm Hd.
  assert (Hc : m = 0 \/ m = 1 \/ m = 2 \/ m = 3 \/ m = 4 \/ m = 5 \/ m = 6
               \/ m = 7 \/ m = 8 \/ m = 9 \/ m = 10 \/ m = 11) by lia.
  unfold MonthFromDayInYear.
  repeat destruct Hc as [Hc|Hc]; subst m; revert Hd; month_start_simpl; intro Hd;
    split_month_ifs; lia.
Qed.

Lemma month_start_bounds m leap :
  0 <= leap <= 1 -> 0 <= m <= 11 ->
  28 <= month_start (m + 1) leap - month_start m leap <= 31
  /\ 0 <= month_start m leap /\ month_start (m + 1) leap <= 365 + leap.
Proof.
  intros Hl Hm.
  assert (Hc : m = 0 \/ m = 1 \/ m = 2 \/ m = 3 \/ m = 4 \/ m = 5 \/ m = 6
               \/ m = 7 \/ m = 8 \/ m = 9 \/ m = 10 \/ m = 11) by lia.
  repeat destruct Hc as [Hc|Hc]; subst m; month_start_simpl; lia.
Qed.

Lemma MakeDay_in_year y m d :
  0 <= m <= 11 -> MakeDay y m d = DayFromYear y + month_start m (InLeapYear y) + d - 1.
Proof.
  intro Hm. unfold MakeDay.
  rewrite (Z.div_small m 12), (Z.mod_small m 12) by lia.
  rewrite Z.add_0_r. reflexivity.
Qed.

Lemma civil_MakeDay y m d :
  valid_date y m d -> civil (MakeDay y m d) = (y, m, d).
Proof.
  intros [Hm Hd]. unfold DaysInMonth in Hd.
  pose proof (InLeapYear_range y) as Hl.
  pose proof (month_start_bounds m (InLeapYear y) Hl Hm) as (_ & Hs0 & Hs1).
  rewrite MakeDay_in_year by exact Hm.
  unfold civil.
  rewrite (YearFromDay_unique y).
  2: { rewrite DayFromYear_succ. unfold DaysInYear. lia. }
  rewrite (MonthFromDayInYear_unique m) by lia.
  f_equal; lia.
Qed.

Lemma civil_valid e :
  let '(y, m, d) := civil e in valid_date y m d /\ MakeDay y m d = e.
Proof.
  unfold civil.
  set (y := YearFromDay e). pose proof (YearFromDay_spec e) as Hy. fold y in Hy.
  rewrite DayFromYear_succ in Hy. unfold DaysInYear in Hy.
  pose proof (InLeapYear_range y) as Hl.
  destruct (MonthFromDayInYear_spec (e - DayFromYear y) (InLeapYear y) Hl ltac:(lia))
    as [Hm Hs].
  set (m := MonthFromDayInYear (e - DayFromYear y) (InLeapYear y)) in *.
  split.
  - split; [exact Hm|]. unfold DaysInMonth. lia.
  - rewrite MakeDay_in_year by exact Hm. lia.
Qed.
Lemma substring_length n m s : (String.length (substring n m s) <= m)%nat.
Proof.
  revert n m. induction s as [|c s IH]; intros n m.
  - destruct n, m; simpl; lia.
  - destruct n as [|n], m as [|m]; simpl; try lia.
    + specialize (IH 0%nat m). lia.
    + apply IH.
    + apply IH.
Qed.

Lemma digit_of_range c k : digit_of c = Some k -> 0 <= k <= 9.
Proof.
  unfold digit_of. destruct (Nat.leb 48 _ && Nat.leb _ 57)%bool eqn:E; [|discriminate].
  apply andb_true_iff in E as [E1 E2]. apply Nat.leb_le in E1, E2.
  intro H. injection H as <-. lia.
Qed.

Lemma digits_value_bound s acc v :
  digits_value s acc = Some v -> 0 <= acc ->
  0 <= v < (acc + 1) * 10 ^ Z.of_nat (String.length s).
Proof.
  revert acc. induction s as [|c s IH]; intros acc H Hacc; simpl in H.
  - injection H as <-. change (10 ^ Z.of_nat (String.length EmptyString)) with 1. lia.
  - destruct (digit_of c) as [k|] eqn:Ek; [|discriminate].
    apply digit_of_range in Ek.
    specialize (IH (10 * acc + k) H ltac:(lia)).
    cbn [String.length]. rewrite Nat2Z.inj_succ, Z.pow_succ_r by lia.
    pose proof (Z.pow_pos_nonneg 10 (Z.of_nat (String.length s)) ltac:(lia) ltac:(lia)).
    nia.
Qed.

Lemma parseDate_spec s cur :
  parseDate s = Some cur ->
  exists y m d, 0 <= y < 10000 /\ valid_date y m d /\ cur = MakeDay y m d.
Proof.
  unfold parseDate.
  destruct (negb _); [discriminate|].
  destruct (digits_value (substring 0 4 s) 0) as [y|] eqn:Ey; [|discriminate].
  destruct (digits_value (substring 5 2 s) 0) as [m|] eqn:Em; [|discriminate].
  destruct (digits_value (substring 8 2 s) 0) as [d|] eqn:Ed; [|discriminate].
  destruct (_ && _)%bool eqn:E; [|discriminate].
  intro H. injection H as <-.
  repeat rewrite andb_true_iff in E.
  destruct E as [[[[[_ _] Hm1] Hm2] Hd1] Hd2].
  apply Z.leb_le in Hm1, Hm2, Hd1, Hd2.
  apply digits_value_bound in Ey; [|lia].
  pose proof (substring_length 0 4 s).
  assert (10 ^ Z.of_nat (String.length (substring 0 4 s)) <= 10 ^ 4)
    by (apply Z.pow_le_mono_r; lia).
  exists y, (m - 1), d. unfold valid_date. repeat split; try lia.
Qed.

Lemma MakeDay_add_date y m d k : MakeDay y m (d + k) = MakeDay y m d + k.
Proof. unfold MakeDay. lia. Qed.

Lemma MakeDay_next_month y m d :
  0 <= m <= 11 ->
  MakeDay y (m + 1) d = let '(ny, nm) := next_month y m in MakeDay ny nm d.
Proof.
  intro Hm. unfold next_month.
  destruct (m =? 11) eqn:E.
  { apply Z.eqb_eq in E. subst m. unfold MakeDay.
    change ((11 + 1) / 12) with 1. change ((11 + 1) mod 12) with 0.
    change (0 / 12) with 0. change (0 mod 12) with 0. rewrite !Z.add_0_r. cbn -[Z.add]. lia. }
  reflexivity.
Qed.

Lemma next_month_range y m :
  0 <= m <= 11 -> let '(ny, nm) := next_month y m in 0 <= nm <= 11 /\ y <= ny <= y + 1.
Proof. intro. unfold next_month. destruct (m =? 11) eqn:E; rewrite ?Z.eqb_eq, ?Z.eqb_neq in E; lia. Qed.

Lemma MakeDay_overflow y m k :
  0 <= m <= 11 ->
  MakeDay y m (DaysInMonth y m + k) = let '(y2, m2) := next_month y m in MakeDay y2 m2 k.
Proof.
  intro Hm. rewrite <- MakeDay_next_month by exact Hm.
  rewrite !MakeDay_in_year by lia. unfold DaysInMonth.
  unfold next_month.
  destruct (m =? 11) eqn:E; [apply Z.eqb_eq in E; subst m|apply Z.eqb_neq in E].
  - unfold MakeDay. change ((11 + 1) / 12) with 1. change ((11 + 1) mod 12) with 0.
    rewrite DayFromYear_succ. unfold DaysInYear. change (11 + 1) with 12. cbn -[Z.add]. lia.
  - rewrite MakeDay_in_year by lia. lia.
Qed.

Lemma DayFromYear_bounds y : 0 <= y <= 10001 -> -1000000 <= DayFromYear y <= 3000000.
Proof. intro. unfold DayFromYear. Z.div_mod_to_equations. lia. Qed.

Lemma TimeClip_small d : Z.abs d <= 100000000 -> TimeClip d = Some d.
Proof. intro H. unfold TimeClip. apply Z.leb_le in H. rewrite H. reflexivity. Qed.

Lemma MakeDay_range y m d :
  0 <= y <= 10001 -> 0 <= m <= 11 -> -100 <= d <= 100 ->
  Z.abs (MakeDay y m d) <= 100000000.
Proof.
  intros Hy Hm Hd. rewrite MakeDay_in_year by exact Hm.
  pose proof (DayFromYear_bounds y Hy).
  pose proof (InLeapYear_range y) as Hl.
  pose proof (month_start_bounds m (InLeapYear y) Hl Hm). lia.
Qed.

Lemma nextDueDate_spec r due cur :
  r <> RNone -> parseDate due = Some cur ->
  exists nd, nextDueDate r due = Some (isoDate nd) /\ civil nd = next_due_calendar r cur.
Proof.
  intros Hr Hp.
  destruct (parseDate_spec _ _ Hp) as (y & m & d & Hy & Hv & ->).
  pose proof (civil_MakeDay y m d Hv) as Hc.
  destruct Hv as [Hm Hd].
  pose proof (InLeapYear_range y) as Hl.
  pose proof (month_start_bounds m (InLeapYear y) Hl Hm) as Hb.
  unfold DaysInMonth in Hd.
  unfold nextDueDate. rewrite Hp.
  destruct r; [congruence| | |].
  - (* daily *)
    unfold setDate, getDate. rewrite Hc.
    rewrite MakeDay_add_date, TimeClip_small
      by (rewrite <- MakeDay_add_date; apply MakeDay_range; lia).
    eexists; split; [reflexivity|]. reflexivity.
  - (* weekly *)
    unfold setDate, getDate. rewrite Hc.
    rewrite MakeDay_add_date, TimeClip_small
      by (rewrite <- MakeDay_add_date; apply MakeDay_range; lia).
    eexists; split; [reflexivity|]. reflexivity.
  - (* monthly *)
    unfold setMonth, getMonth. rewrite Hc.
    rewrite MakeDay_next_month by exact Hm.
    pose proof (next_month_range y m Hm) as Hn.
    destruct (next_month y m) as [ny nm] eqn:En.
    rewrite TimeClip_small by (apply MakeDay_range; lia).
    eexists; split; [reflexivity|].
    unfold next_due_calendar. rewrite Hc, En.
    pose proof (InLeapYear_range ny) as Hl'.
    pose proof (month_start_bounds nm (InLeapYear ny) Hl' (proj1 Hn)) as Hb'.
    destruct (d <=? DaysInMonth ny nm) eqn:Ed.
    + apply Z.leb_le in Ed. apply civil_MakeDay. split; [lia|]. lia.
    + apply Z.leb_gt in Ed.
      replace d with (DaysInMonth ny nm + (d - DaysInMonth ny nm)) at 1 by lia.
      rewrite MakeDay_overflow by lia.
      pose proof (next_month_range ny nm (proj1 Hn)) as Hn2.
      destruct (next_month ny nm) as [ny2 nm2] eqn:En2.
      pose proof (InLeapYear_range ny2) as Hl2.
      pose proof (month_start_bounds nm2 (InLeapYear ny2) Hl2 (proj1 Hn2)).
      unfold DaysInMonth in *.
      apply civil_MakeDay. split; [lia|]. unfold DaysInMonth. lia.
Qed.

(** ** Recurring tasks ([completeTask]) *)

(** C3 (as the code behaves).  Completing a task whose recurrence is not
    [none] and whose due date is a valid [YYYY-MM-DD] date appends exactly one
    new, uncompleted task after the existing ones.  Its due date is the old
    one plus 1 day for [daily] and plus 7 days for [weekly].  For [monthly] it
    is the same day of the next month when that day exists.  Otherwise
    [setMonth] runs over into the month after by the missing days; there is
    no clamping to the end of the month.  Dates are taken in UTC. *)
Theorem completeTask_next_due (now : Z) (taskId due : string) (st : Store)
    (task : Task) (cur : Z) :
  find_task taskId (tasks st) = Some task ->
  recurrence task <> RNone ->
  dueDate task = Some due ->
  parseDate due = Some cur ->
  exists prefix nt nd,
    tasks (completeTask now taskId st) = prefix ++ [nt]
    /\ List.length prefix = List.length (tasks st)
    /\ completed nt = false
    /\ dueDate nt = Some (isoDate nd)
    /\ civil nd = next_due_calendar (recurrence task) cur.
Proof.
  intros Hf Hr Hd Hp.
  destruct (nextDueDate_spec _ _ _ Hr Hp) as (nd & Hn & Hc).
  unfold completeTask. rewrite Hf, Hd.
  assert (Hne : is_empty due = false)
    by (destruct due; [discriminate Hp | reflexivity]).
  assert (Hrec : is_none_rec (recurrence task) = false)
    by (destruct (recurrence task); [congruence | reflexivity ..]).
  rewrite Hne, Hrec, Hn. cbn [negb andb].
  eexists _, _, nd. split; [reflexivity|].
  split; [apply length_map|].
  split; [reflexivity|]. split; [reflexivity|]. exact Hc.
Qed.

Lemma completeTask_next_due_witness :
  exists prefix nt nd,
    tasks (completeTask 1000 "m"%string monthly_store) = prefix ++ [nt]
    /\ List.length prefix = List.length (tasks monthly_store)
    /\ completed nt = false
    /\ dueDate nt = Some (isoDate nd)
    /\ civil nd = next_due_calendar Monthly 19753.
Proof.
  apply (completeTask_next_due 1000 "m" "2024-01-31" monthly_store
           (mkTask "m" "1" "Q1" "Pay rent" 0 false None 0 (Some "2024-01-31")
              None [] Monthly) 19753)%string.
  - reflexivity.
  - discriminate.
  - reflexivity.
  - vm_compute. reflexivity.
Defined.

(** C3 (as specified, refuted).  A monthly task due 2024-01-31 does not
    spawn a task due 2024-02-29: the spawned task is due 2024-03-02. *)
Lemma completeTask_monthly_jan31_overflows :
  map dueDate (tasks (completeTask 1000 "m"%string monthly_store))
    = [Some "2024-01-31"%string; Some "2024-03-02"%string]
  /\ ~ In (Some "2024-02-29"%string)
         (map dueDate (tasks (completeTask 1000 "m"%string monthly_store))).
Proof.
  split.
  - vm_compute. reflexivity.
  - vm_compute. intros [H | [H | []]]; discriminate H.
Qed.

(** ** Stable sorts: sortedness, filtering, last element *)

Section SortMore.
Context {A : Type} (key : A -> Z).

Lemma ins_sorted x l :
  Sorted (fun a b => key a <= key b) l ->
  Sorted (fun a b => key a <= key b) (ins key x l).
Proof.
  induction l as [|y l IH]; simpl; intro H; [repeat constructor|].
  destruct (key x <=? key y) eqn:E.
  - apply Z.leb_le in E. constructor; [exact H|constructor; exact E].
  - apply Z.leb_gt in E. inversion H as [|? ? Hl Hhd]; subst.
    constructor; [exact (IH Hl)|].
    destruct l as [|z l]; simpl; [constructor; lia|].
    destruct (key x <=? key z); constructor; [lia|inversion Hhd; assumption].
Qed.

Lemma sort_by_sorted l : Sorted (fun a b => key a <= key b) (sort_by key l).
Proof.
  induction l as [|x l IH]; simpl; [constructor|]. apply ins_sorted, IH.
Qed.

Lemma sort_by_strongly_sorted l :
  StronglySorted (fun a b => key a <= key b) (sort_by key l).
Proof.
  apply Sorted_StronglySorted; [intros a b c; lia|]. apply sort_by_sorted.
Qed.

Lemma ins_front x l : Forall (fun z => key x <= key z) l -> ins key x l = x :: l.
Proof.
  destruct l as [|y l]; simpl; intro H; [reflexivity|].
  inversion H; subst. destruct (key x <=? key y) eqn:E; [reflexivity|].
  apply Z.leb_gt in E. lia.
Qed.

Lemma filter_ins (P : A -> bool) x l :
  StronglySorted (fun a b => key a <= key b) l ->
  filter P (ins key x l) = if P x then ins key x (filter P l) else filter P l.
Proof.
  induction l as [|y l IH]; intro H.
  - simpl. destruct (P x); reflexivity.
  - inversion H as [|? ? Hl Hy]; subst. simpl ins.
    destruct (key x <=? key y) eqn:E.
    + apply Z.leb_le in E. simpl filter. destruct (P x) eqn:Px; [|reflexivity].
      symmetry. apply ins_front.
      assert (Hall : Forall (fun z => key x <= key z) (y :: l)).
      { constructor; [exact E|]. eapply Forall_impl; [|exact Hy]. simpl; lia. }
      inversion Hall as [|? ? Hxy Hxl]; subst.
      assert (Hf : Forall (fun z => key x <= key z) (filter P l)).
      { rewrite Forall_forall in *. intros z Hz. apply filter_In in Hz.
        apply Hxl, Hz. }
      destruct (P y); [constructor; assumption|exact Hf].
    + simpl filter. rewrite (IH Hl). destruct (P y) eqn:Py, (P x) eqn:Px;
        try reflexivity.
      simpl. rewrite E. reflexivity.
Qed.

Lemma sort_by_filter (P : A -> bool) l :
  sort_by key (filter P l) = filter P (sort_by key l).
Proof.
  induction l as [|x l IH]; simpl; [reflexivity|].
  rewrite filter_ins by apply sort_by_strongly_sorted.
  destruct (P x); simpl; rewrite IH; reflexivity.
Qed.

Lemma sort_by_ext (key' : A -> Z) l :
  (forall a, key' a = key a) -> sort_by key' l = sort_by key l.
Proof.
  intro Hk. induction l as [|x l IH]; simpl; [reflexivity|]. rewrite IH.
  generalize (sort_by key l) as m. induction m as [|y m IHm]; simpl; [reflexivity|].
  rewrite !Hk, IHm. reflexivity.
Qed.

Lemma hd_rev_cons2 (a b : A) m : hd_error (rev (a :: b :: m)) = hd_error (rev (b :: m)).
Proof.
  change (rev (a :: b :: m)) with (rev (b :: m) ++ [a]).
  destruct (rev (b :: m)) eqn:R; [|reflexivity].
  apply (f_equal (@List.length A)) in R. rewrite length_rev in R. discriminate R.
Qed.

Lemma sorted_last m :
  StronglySorted (fun a b => key a <= key b) m ->
  forall z, In z m -> exists y, hd_error (rev m) = Some y /\ In y m /\ key z <= key y.
Proof.
  induction m as [|a m IH]; intros Hm z Hz; [destruct Hz|].
  inversion Hm as [|? ? Hm' Ha]; subst. rewrite Forall_forall in Ha.
  destruct m as [|b m].
  - destruct Hz as [->|[]]. exists z. split; [reflexivity|]. split; [left; reflexivity|lia].
  - rewrite hd_rev_cons2.
    destruct Hz as [<-|Hz].
    + destruct (IH Hm' b (or_introl eq_refl)) as (y & Hy & Hiny & _).
      exists y. split; [exact Hy|]. split; [right; exact Hiny|]. apply Ha, Hiny.
    + destruct (IH Hm' z Hz) as (y & Hy & Hiny & Hk).
      exists y. split; [exact Hy|]. split; [right; exact Hiny|exact Hk].
Qed.

(** The last element of a sorted sequence carries the largest key. *)
Lemma sort_by_last l x :
  In x l ->
  exists y, hd_error (rev (sort_by key l)) = Some y /\ In y l /\ key x <= key y.
Proof.
  intro Hx.
  assert (Hin : In x (sort_by key l))
    by (eapply Permutation_in; [symmetry; apply sort_by_perm|exact Hx]).
  destruct (sorted_last _ (sort_by_strongly_sorted l) x Hin) as (y & Hy & Hiny & Hk).
  exists y. split; [exact Hy|]. split; [|exact Hk].
  eapply Permutation_in; [apply sort_by_perm|exact Hiny].
Qed.

End SortMore.

Lemma filter_comm {A} (P Q : A -> bool) l :
  filter P (filter Q l) = filter Q (filter P l).
Proof.
  induction l as [|x l IH]; simpl; [reflexivity|].
  destruct (Q x) eqn:Qx, (P x) eqn:Px; simpl; rewrite ?Qx, ?Px, IH; reflexivity.
Qed.

Lemma lookup_remove_key_same {V} (k : string) (m : list (string * V)) :
  lookup k (remove_key k m) = None.
Proof.
  induction m as [|[k' v] m IH]; simpl; [reflexivity|].
  destruct (String.eqb k k') eqn:E; simpl; [exact IH|].
  rewrite E. exact IH.
Qed.

(** ** Deleting, completing and editing tasks *)

(** [deleteTask] removes exactly the task from every quadrant on screen and
    keeps the others in their displayed order; no task with that id is left. *)
Theorem deleteTask_quadrant_views (taskId : string) (st : Store) (q : string) :
  getTasksForQuadrant (deleteTask taskId st) q
    = filter (fun t => negb (String.eqb (id t) taskId)) (getTasksForQuadrant st q)
  /\ find_task taskId (tasks (deleteTask taskId st)) = None.
Proof.
  split.
  - unfold getTasksForQuadrant, deleteTask, with_tasks. cbn [tasks activeBoardId activeTagFilter].
    rewrite (filter_comm (in_partition _ _)), (filter_comm (tag_filter_ok _)).
    apply sort_by_filter.
  - unfold deleteTask, with_tasks, find_task. cbn [tasks].
    destruct (find _ _) as [t|] eqn:E; [|reflexivity].
    apply find_some in E as [Hin Hid]. apply filter_In in Hin as [_ Hn].
    rewrite Hid in Hn. discriminate Hn.
Qed.

Lemma filter_partition_complete b q taskId now l :
  filter (in_partition b q)
    (map (fun t => if String.eqb (id t) taskId then
                     mkTask (id t) (boardId t) (quadrantId t) (title t)
                       (createdAt t) true (Some now) (order t) (dueDate t)
                       (reminderAt t) (tags t) (recurrence t)
                   else t) l)
  = filter (fun t => negb (String.eqb (id t) taskId)) (filter (in_partition b q) l).
Proof.
  induction l as [|t l IH]; simpl; [reflexivity|].
  destruct (String.eqb (id t) taskId) eqn:E.
  - unfold in_partition at 1. cbn [boardId quadrantId completed negb].
    rewrite andb_false_r. rewrite IH.
    destruct (in_partition b q t); simpl; rewrite ?E; reflexivity.
  - destruct (in_partition b q t); simpl; rewrite ?E, IH; reflexivity.
Qed.

(** Completing a non-recurring task removes exactly that task from every
    quadrant on screen, keeps the others in their displayed order, and adds
    no task to the store. *)
Theorem completeTask_nonrecurring_views (now : Z) (taskId : string) (st : Store)
    (task : Task) (q : string) :
  find_task taskId (tasks st) = Some task ->
  recurrence task = RNone ->
  getTasksForQuadrant (completeTask now taskId st) q
    = filter (fun t => negb (String.eqb (id t) taskId)) (getTasksForQuadrant st q)
  /\ List.length (tasks (completeTask now taskId st)) = List.length (tasks st).
Proof.
  intros Hf Hr. unfold completeTask. rewrite Hf, Hr.
  assert (Hsp : forall (o : option string),
             match o with
             | Some due =>
                 if (negb (is_none_rec RNone) && negb (is_empty due))%bool
                 then match nextDueDate RNone due with
                      | Some nd =>
                          [mkTask (string_of_Z now) (boardId task) (quadrantId task)
                             (title task) now false None
                             (getNextOrder st (quadrantId task)) (Some nd)
                             (reminderAt task) (tags task) RNone]
                      | None => []
                      end
                 else []
             | None => []
             end = []) by (intros [o|]; reflexivity).
  rewrite Hsp, app_nil_r. split.
  - unfold getTasksForQuadrant, with_tasks. cbn [tasks activeBoardId activeTagFilter].
    rewrite filter_partition_complete, (filter_comm (tag_filter_ok _)).
    apply sort_by_filter.
  - unfold with_tasks. cbn [tasks]. apply length_map.
Qed.

(** Editing a task never moves or reorders tasks: with no tag filter active,
    every quadrant shows the same tasks, by id and [order], in the same
    sequence as before the edit (whether or not the edit is accepted). *)
Theorem updateTask_keeps_quadrant_sequence (taskId : string) (fd : TaskFormData)
    (st : Store) (q : string) :
  activeTagFilter st = None ->
  map (fun t => (id t, order t)) (getTasksForQuadrant (updateTask taskId fd st) q)
  = map (fun t => (id t, order t)) (getTasksForQuadrant st q).
Proof.
  intro Hnf. unfold updateTask.
  destruct (is_empty (trim (f_title fd))); [reflexivity|].
  unfold getTasksForQuadrant. cbn [tasks activeBoardId activeTagFilter].
  rewrite Hnf.
  set (f := fun t : Task =>
              if String.eqb (id t) taskId then
                mkTask (id t) (boardId t) (quadrantId t) (trim (f_title fd))
                  (createdAt t) (completed t) (completedAt t) (order t)
                  (or_null (f_dueDate fd)) (or_null (f_reminderAt fd))
                  (parseTags (f_tags fd)) (f_recurrence fd)
              else t).
  assert (Hf : forall t, id (f t) = id t /\ order (f t) = order t
                         /\ in_partition (activeBoardId st) q (f t)
                            = in_partition (activeBoardId st) q t).
  { intro t. unfold f. destruct (String.eqb (id t) taskId); auto. }
  rewrite <- (map_filter_comp f (in_partition (activeBoardId st) q)).
  rewrite (filter_ext (fun a => in_partition (activeBoardId st) q (f a))
             (in_partition (activeBoardId st) q)) by (intro; apply Hf).
  assert (Hnone : forall l, filter (tag_filter_ok None) l = l).
  { induction l as [|x l IH]; simpl; [reflexivity|]. rewrite IH. reflexivity. }
  rewrite !Hnone.
  rewrite <- (map_sort_by f order).
  rewrite (sort_by_ext order (fun a => order (f a))) by (intro; apply Hf).
  rewrite map_map. apply map_ext. intro t. destruct (Hf t) as (-> & -> & _).
  reflexivity.
Qed.

(** An edit with a blank title is refused: the tasks are left as they are
    and the task's error message is "Task title is required". *)
Theorem updateTask_blank_title_rejected (taskId : string) (fd : TaskFormData)
    (st : Store) :
  is_empty (trim (f_title fd)) = true ->
  tasks (updateTask taskId fd st) = tasks st
  /\ lookup taskId (errorMessages (updateTask taskId fd st)) = Some title_required.
Proof.
  intro H. unfold updateTask. rewrite H. cbn [tasks errorMessages].
  split; [reflexivity|apply lookup_set_key_same].
Qed.

(** ** Where new and moved tasks appear *)

(** Adding a task with a non-blank title appends one new active task to the
    store, clears the quadrant's form and error message, and, when the new
    task passes the active tag filter, shows it last in its quadrant. *)
Theorem addTask_shown_last (now : Z) (q : string) (st : Store) (fd : TaskFormData) :
  lookup q (newTaskInputs st) = Some fd ->
  is_empty (trim (f_title fd)) = false ->
  exists nt,
    tasks (addTask now q st) = tasks st ++ [nt]
    /\ title nt = trim (f_title fd) /\ quadrantId nt = q
    /\ boardId nt = activeBoardId st /\ completed nt = false
    /\ lookup q (newTaskInputs (addTask now q st)) = None
    /\ lookup q (errorMessages (addTask now q st)) = Some EmptyString
    /\ (tag_filter_ok (activeTagFilter st) nt = true ->
        hd_error (rev (getTasksForQuadrant (addTask now q st) q)) = Some nt).
Proof.
  intros Hl Ht. unfold addTask. rewrite Hl, Ht.
  set (nt := mkTask (string_of_Z now) (activeBoardId st) q (trim (f_title fd)) now
               false None (getNextOrder st q) (or_null (f_dueDate fd))
               (or_null (f_reminderAt fd)) (parseTags (f_tags fd)) (f_recurrence fd)).
  exists nt. cbn [tasks newTaskInputs errorMessages].
  repeat split; try reflexivity.
  - apply lookup_remove_key_same.
  - apply lookup_set_key_same.
  - intro Htf. unfold getTasksForQuadrant. cbn [tasks activeBoardId activeTagFilter].
    assert (Hp : in_partition (activeBoardId st) q nt = true).
    { unfold in_partition. cbn [boardId quadrantId completed].
      rewrite !String.eqb_refl. reflexivity. }
    rewrite !filter_app. cbn [filter]. rewrite Hp. cbn [filter]. rewrite Htf.
    set (L := filter (tag_filter_ok (activeTagFilter st))
                (filter (in_partition (activeBoardId st) q) (tasks st))).
    destruct (sort_by_last order (L ++ [nt]) nt) as (y & Hy & Hiny & Hk).
    { apply in_or_app. right. left. reflexivity. }
    rewrite Hy. f_equal.
    apply in_app_or in Hiny as [HinL|[<-|[]]]; [|reflexivity].
    exfalso.
    assert (Hg : In y (getTasksForQuadrant st q)).
    { unfold getTasksForQuadrant. eapply Permutation_in;
        [symmetry; apply sort_by_perm|exact HinL]. }
    apply (proj1 (getNextOrder_bounds st q)) in Hg.
    cbn [order nt] in Hk. unfold nt in Hk. cbn [order] in Hk. lia.
Qed.

(** Moving a task to a quadrant with the keyboard (no direction) shows it
    last in that quadrant, with order [getNextOrder], provided it belongs to
    the active board, is active and passes the tag filter. *)
Theorem keyboard_move_shown_last (taskId tq : string) (st : Store) (task : Task) :
  find_task taskId (tasks st) = Some task ->
  boardId task = activeBoardId st ->
  completed task = false ->
  tag_filter_ok (activeTagFilter st) task = true ->
  exists t',
    hd_error (rev (getTasksForQuadrant (handleKeyboardMove taskId tq None st) tq)) = Some t'
    /\ id t' = taskId /\ quadrantId t' = tq /\ order t' = getNextOrder st tq.
Proof.
  intros Hf Hb Hc Htf.
  pose proof (find_task_id _ _ _ Hf) as Hid.
  unfold find_task in Hf. pose proof (find_some _ _ Hf) as [Hin _].
  unfold handleKeyboardMove, find_task. rewrite Hf.
  unfold getTasksForQuadrant, with_tasks. cbn [tasks activeBoardId activeTagFilter].
  set (N := getNextOrder st tq).
  set (g := fun t => if String.eqb (id t) taskId then with_quadrant_order t tq N else t).
  set (L := filter (tag_filter_ok (activeTagFilter st))
              (filter (in_partition (activeBoardId st) tq) (map g (tasks st)))).
  assert (Hm : In (g task) L).
  { unfold L. apply filter_In. split.
    - apply filter_In. split; [apply in_map, Hin|].
      unfold g. rewrite Hid, String.eqb_refl. unfold in_partition, with_quadrant_order.
      cbn [boardId quadrantId completed]. rewrite Hb, Hc, !String.eqb_refl. reflexivity.
    - unfold g. rewrite Hid, String.eqb_refl. exact Htf. }
  destruct (sort_by_last order L (g task) Hm) as (y & Hy & Hiny & Hk).
  exists y. split; [exact Hy|].
  unfold L in Hiny. apply filter_In in Hiny as [Hiny Hty].
  apply filter_In in Hiny as [Hiny Hpy].
  apply in_map_iff in Hiny as (u & <- & Hu).
  unfold g in *. rewrite Hid, String.eqb_refl in Hk.
  destruct (String.eqb (id u) taskId) eqn:Eu.
  - apply String.eqb_eq in Eu. cbn. auto.
  - exfalso.
    assert (Hg : In u (getTasksForQuadrant st tq)) by
      (apply getTasksForQuadrant_In; auto).
    apply (proj1 (getNextOrder_bounds st tq)) in Hg.
    cbn [order with_quadrant_order] in Hk. fold N in Hg. lia.
Qed.

(** ** Tag lists ([getAllTags], [getArchiveTags]) *)

Lemma string_compare_lt_trans a b c :
  String.compare a b = Lt -> String.compare b c = Lt -> String.compare a c = Lt.
Proof.
  revert b c. induction a as [|x a IH]; intros [|y b] [|z c]; simpl; try congruence.
  unfold Ascii.compare.
  destruct (N.compare_spec (N_of_ascii x) (N_of_ascii y)) as [Exy|Lxy|Gxy];
  destruct (N.compare_spec (N_of_ascii y) (N_of_ascii z)) as [Eyz|Lyz|Gyz];
  destruct (N.compare_spec (N_of_ascii x) (N_of_ascii z)); try congruence; try lia.
  intros. eapply IH; eassumption.
Qed.

Lemma string_leb_trans a b c :
  String.leb a b = true -> String.leb b c = true -> String.leb a c = true.
Proof.
  unfold String.leb.
  destruct (String.compare a b) eqn:Eab; try discriminate;
  destruct (String.compare b c) eqn:Ebc; try discriminate; intros _ _.
  - apply String.compare_eq_iff in Eab. subst. rewrite Ebc. reflexivity.
  - apply String.compare_eq_iff in Eab. subst. rewrite Ebc. reflexivity.
  - apply String.compare_eq_iff in Ebc. subst. rewrite Eab. reflexivity.
  - rewrite (string_compare_lt_trans a b c Eab Ebc). reflexivity.
Qed.

Lemma ins_string_perm x l : Permutation (ins_string x l) (x :: l).
Proof.
  induction l as [|y l IH]; simpl; [reflexivity|].
  destruct (String.leb x y); [reflexivity|].
  rewrite IH. apply perm_swap.
Qed.

Lemma sort_strings_perm l : Permutation (sort_strings l) l.
Proof.
  induction l as [|x l IH]; simpl; [constructor|].
  rewrite ins_string_perm. constructor. exact IH.
Qed.

Lemma ins_string_sorted x l :
  Sorted (fun a b => String.leb a b = true) l ->
  Sorted (fun a b => String.leb a b = true) (ins_string x l).
Proof.
  induction l as [|y l IH]; simpl; intro H; [repeat constructor|].
  destruct (String.leb x y) eqn:E; [constructor; [exact H|constructor; exact E]|].
  assert (Eyx : String.leb y x = true)
    by (destruct (String.leb_total x y); congruence).
  inversion H as [|? ? Hl Hhd]; subst.
  constructor; [exact (IH Hl)|].
  destruct l as [|z l]; simpl; [constructor; exact Eyx|].
  destruct (String.leb x z); constructor; [exact Eyx|inversion Hhd; assumption].
Qed.

Lemma sort_strings_sorted l : Sorted (fun a b => String.leb a b = true) (sort_strings l).
Proof.
  induction l as [|x l IH]; simpl; [constructor|]. apply ins_string_sorted, IH.
Qed.

Lemma sorted_nodup_strict l :
  Sorted (fun a b => String.leb a b = true) l -> NoDup l ->
  StronglySorted (fun a b => String.compare a b = Lt) l.
Proof.
  intros Hs Hn.
  apply Sorted_StronglySorted in Hs; [|intros a b c; apply string_leb_trans].
  induction Hs as [|a l Hl IH Ha]; [constructor|].
  inversion Hn as [|? ? Hna Hnl]; subst.
  constructor; [exact (IH Hnl)|].
  rewrite Forall_forall in *. intros b Hb. specialize (Ha b Hb).
  unfold String.leb in Ha.
  destruct (String.compare a b) eqn:E; try discriminate; [|reflexivity].
  apply String.compare_eq_iff in E. subst. contradiction.
Qed.

Lemma set_add_fold tgs acc :
  NoDup acc ->
  NoDup (fold_left (fun s tag => set_add tag s) tgs acc)
  /\ (forall y, In y (fold_left (fun s tag => set_add tag s) tgs acc)
                <-> In y acc \/ In y tgs).
Proof.
  revert acc. induction tgs as [|x tgs IH]; intros acc Hn; simpl.
  - split; [exact Hn|]. intro y. tauto.
  - assert (Hn' : NoDup (set_add x acc)
                  /\ forall y, In y (set_add x acc) <-> In y acc \/ x = y).
    { unfold set_add. destruct (existsb (String.eqb x) acc) eqn:E.
      - split; [exact Hn|]. intro y. split; [tauto|].
        intros [H|<-]; [exact H|].
        apply existsb_exists in E as (z & Hz & Ez). apply String.eqb_eq in Ez.
        subst. exact Hz.
      - split.
        + apply NoDup_app; [exact Hn|repeat constructor; auto|].
          intros z Hz [<-|[]]. assert (existsb (String.eqb x) acc = true)
            by (apply existsb_exists; exists x; split; [exact Hz|apply String.eqb_refl]).
          congruence.
        + intro y. rewrite in_app_iff. simpl. tauto. }
    destruct Hn' as [Hn' Hin'].
    destruct (IH _ Hn') as [IH1 IH2]. split; [exact IH1|].
    intro y. rewrite IH2, Hin'. tauto.
Qed.

Lemma collect_tags_spec ts :
  NoDup (collect_tags ts)
  /\ (forall y, In y (collect_tags ts) <-> exists t, In t ts /\ In y (tags t)).
Proof.
  unfold collect_tags.
  assert (Hgen : forall acc, NoDup acc ->
            NoDup (fold_left (fun s t => fold_left (fun s tag => set_add tag s) (tags t) s) ts acc)
            /\ (forall y, In y (fold_left (fun s t => fold_left (fun s tag => set_add tag s)
                                                          (tags t) s) ts acc)
                          <-> In y acc \/ exists t, In t ts /\ In y (tags t))).
  { induction ts as [|t ts IH]; intros acc Hn; simpl.
    - split; [exact Hn|]. intro y. split; [tauto|]. intros [H|(? & [] & _)]. exact H.
    - destruct (set_add_fold (tags t) acc Hn) as [Hn1 Hin1].
      destruct (IH _ Hn1) as [IH1 IH2]. split; [exact IH1|].
      intro y. rewrite IH2, Hin1. split.
      + intros [[H|H]|(u & Hu & Hy)]; [left; exact H|right; exists t; auto|right; exists u; auto].
      + intros [H|(u & [<-|Hu] & Hy)]; [left; left; exact H|left; right; exact Hy|right; exists u; auto]. }
  destruct (Hgen [] (NoDup_nil _)) as [H1 H2]. split; [exact H1|].
  intro y. rewrite H2. split; [intros [[]|H]; exact H|intro H; right; exact H].
Qed.

Lemma sorted_tags_spec ts :
  StronglySorted (fun a b => String.compare a b = Lt) (sort_strings (collect_tags ts))
  /\ (forall y, In y (sort_strings (collect_tags ts)) <-> exists t, In t ts /\ In y (tags t)).
Proof.
  destruct (collect_tags_spec ts) as [Hn Hin]. split.
  - apply sorted_nodup_strict; [apply sort_strings_sorted|].
    eapply Permutation_NoDup; [symmetry; apply sort_strings_perm|exact Hn].
  - intro y. rewrite <- Hin. split; apply Permutation_in;
      [|symmetry]; apply sort_strings_perm.
Qed.

(** The tag lists of the filter bar and of the archive are sorted strictly
    ascending (so without repetition) and hold exactly the tags of the
    active board's active tasks, respectively of its completed tasks. *)
Theorem tag_lists_sorted_exact (st : Store) :
  StronglySorted (fun a b => String.compare a b = Lt) (getAllTags st)
  /\ (forall tag, In tag (getAllTags st) <->
        exists t, In t (tasks st) /\ boardId t = activeBoardId st
                  /\ completed t = false /\ In tag (tags t))
  /\ StronglySorted (fun a b => String.compare a b = Lt) (getArchiveTags st)
  /\ (forall tag, In tag (getArchiveTags st) <->
        exists t, In t (tasks st) /\ boardId t = activeBoardId st
                  /\ completed t = true /\ In tag (tags t)).
Proof.
  unfold getAllTags, getArchiveTags.
  destruct (sorted_tags_spec
              (filter (fun t => String.eqb (boardId t) (activeBoardId st)
                                && negb (completed t))%bool (tasks st))) as [A1 A2].
  destruct (sorted_tags_spec
              (filter (fun t => String.eqb (boardId t) (activeBoardId st)
                                && completed t)%bool (tasks st))) as [B1 B2].
  split; [exact A1|]. split; [|split; [exact B1|]].
  - intro tag. rewrite A2. split.
    + intros (t & Ht & Hy). apply filter_In in Ht as [Ht Hp].
      apply andb_true_iff in Hp as [Hb Hc]. apply String.eqb_eq in Hb.
      apply negb_true_iff in Hc. exists t. auto.
    + intros (t & Ht & Hb & Hc & Hy). exists t. split; [|exact Hy].
      apply filter_In. split; [exact Ht|]. rewrite Hb, Hc, String.eqb_refl. reflexivity.
  - intro tag. rewrite B2. split.
    + intros (t & Ht & Hy). apply filter_In in Ht as [Ht Hp].
      apply andb_true_iff in Hp as [Hb Hc]. apply String.eqb_eq in Hb.
      exists t. auto.
    + intros (t & Ht & Hb & Hc & Hy). exists t. split; [|exact Hy].
      apply filter_In. split; [exact Ht|]. rewrite Hb, Hc, String.eqb_refl. reflexivity.
Qed.

(** ** The archive list ([getCompletedTasks]) *)

Lemma ins_cmp_perm {A} (cmp : A -> A -> Z) x l : Permutation (ins_cmp cmp x l) (x :: l).
Proof.
  induction l as [|y l IH]; simpl; [reflexivity|].
  destruct (cmp x y <=? 0); [reflexivity|].
  rewrite IH. apply perm_swap.
Qed.

Lemma sort_cmp_perm {A} (cmp : A -> A -> Z) l : Permutation (sort_cmp cmp l) l.
Proof.
  induction l as [|x l IH]; simpl; [constructor|].
  rewrite ins_cmp_perm. constructor. exact IH.
Qed.

(** The comparator [(a, b) => k(b) - k(a)] sorts by [-k], stably. *)
Lemma sort_cmp_desc {A} (k : A -> Z) l :
  sort_cmp (fun a b => k b - k a) l = sort_by (fun a => - k a) l.
Proof.
  induction l as [|x l IH]; simpl; [reflexivity|]. rewrite IH.
  generalize (sort_by (fun a => - k a) l) as m.
  induction m as [|y m IHm]; simpl; [reflexivity|].
  replace (k y - k x <=? 0) with (- k x <=? - k y)
    by (destruct (Z.leb_spec (k y - k x) 0), (Z.leb_spec (- k x) (- k y)); lia).
  rewrite IHm. reflexivity.
Qed.

Lemma Sorted_weaken {A} (R R' : A -> A -> Prop) l :
  (forall a b, R a b -> R' a b) -> Sorted R l -> Sorted R' l.
Proof.
  intros Himp H. induction H as [|a l Hl IH Hhd]; constructor; [exact IH|].
  destruct Hhd; constructor. apply Himp. assumption.
Qed.

(** The archive shows exactly the active board's completed tasks that pass
    the archive tag filter, whatever the sort and the host's collation; the
    date sort lists them by completion time, most recent first. *)
Theorem getCompletedTasks_archive (localeCompare : string -> string -> Z)
    (archiveTagFilter : option string) (archiveSortType : ArchiveSortType)
    (st : Store) :
  Permutation (getCompletedTasks localeCompare archiveTagFilter archiveSortType st)
    (filter (tag_filter_ok archiveTagFilter)
       (filter (fun t => String.eqb (boardId t) (activeBoardId st) && completed t)%bool
          (tasks st)))
  /\ Sorted (fun a b => completedAt_or_0 b <= completedAt_or_0 a)
       (getCompletedTasks localeCompare archiveTagFilter SortDate st).
Proof.
  split.
  - unfold getCompletedTasks. destruct archiveSortType; apply sort_cmp_perm.
  - unfold getCompletedTasks. rewrite sort_cmp_desc.
    eapply Sorted_weaken; [|apply (sort_by_sorted (fun a => - completedAt_or_0 a))].
    simpl. intros a b H. lia.
Qed.

(** ** Boards, theme and initials *)

Lemma filter_all_false {A} (P : A -> bool) l :
  (forall x, In x l -> P x = false) -> filter P l = [].
Proof.
  induction l as [|x l IH]; simpl; intro H; [reflexivity|].
  rewrite (H x (or_introl eq_refl)). apply IH. intros y Hy. apply H. right. exact Hy.
Qed.

(** Creating a board with a non-blank name appends a board named by the
    trimmed (hence non-blank, already trimmed) name and makes it active; the
    tasks are untouched, so when no task carries the new id every quadrant
    of the new board is empty and the next order there is 0. *)
Theorem createNewBoard_fresh_board (now : Z) (name : string) (st : Store) :
  is_empty (trim name) = false ->
  Forall (fun t => boardId t <> string_of_Z now) (tasks st) ->
  exists b,
    boards (createNewBoard now (Some name) st) = boards st ++ [b]
    /\ activeBoardId (createNewBoard now (Some name) st) = b_id b
    /\ b_name b = trim name /\ trim (b_name b) = b_name b
    /\ is_empty (b_name b) = false
    /\ tasks (createNewBoard now (Some name) st) = tasks st
    /\ (forall q, getTasksForQuadrant (createNewBoard now (Some name) st) q = []
                  /\ getNextOrder (createNewBoard now (Some name) st) q = 0).
Proof.
  intros Hn Hf. unfold createNewBoard. rewrite Hn.
  exists (mkBoard (string_of_Z now) (trim name)). cbn [boards activeBoardId tasks b_id b_name].
  repeat split; try reflexivity; try exact Hn; try apply trim_idem.
  - unfold getTasksForQuadrant. cbn [tasks activeBoardId activeTagFilter].
    rewrite (filter_all_false (in_partition _ _)); [reflexivity|].
    intros t Ht. rewrite Forall_forall in Hf. specialize (Hf t Ht).
    unfold in_partition. apply String.eqb_neq in Hf. rewrite Hf. reflexivity.
  - unfold getNextOrder, getTasksForQuadrant. cbn [tasks activeBoardId activeTagFilter].
    rewrite (filter_all_false (in_partition _ _)); [reflexivity|].
    intros t Ht. rewrite Forall_forall in Hf. specialize (Hf t Ht).
    unfold in_partition. apply String.eqb_neq in Hf. rewrite Hf. reflexivity.
Qed.

Lemma get_toUpperCase i s :
  String.get i (toUpperCase s) = option_map upper_ascii (String.get i s).
Proof.
  revert i. induction s as [|c s IH]; intros [|i]; simpl; auto.
Qed.

Lemma length_toUpperCase s : String.length (toUpperCase s) = String.length s.
Proof. induction s as [|c s IH]; simpl; auto. Qed.

Lemma get_substring0 i n s c :
  String.get i (substring 0 n s) = Some c -> String.get i s = Some c.
Proof.
  revert i n. induction s as [|a s IH]; intros i n H.
  - destruct n; simpl in H; destruct i; discriminate.
  - destruct n as [|n]; simpl in H; [destruct i; discriminate|].
    destruct i as [|i]; simpl in *; [exact H|]. eapply IH. exact H.
Qed.

Lemma get_before_at i s c : String.get i (before_at s) = Some c -> c <> "@"%char.
Proof.
  revert i. induction s as [|a s IH]; intros i H; simpl in H; [destruct i; discriminate|].
  destruct (Ascii.eqb a "@"%char) eqn:E; [destruct i; discriminate|].
  destruct i as [|i]; simpl in H.
  - injection H as <-. intro Hc. subst. discriminate E.
  - eapply IH. exact H.
Qed.

Lemma upper_ascii_shape c :
  is_lower_ascii (upper_ascii c) = false /\ (upper_ascii c = "@"%char -> c = "@"%char).
Proof.
  destruct c as [[|] [|] [|] [|] [|] [|] [|] [|]]; vm_compute; split;
    try reflexivity; intro H; try discriminate H; exact H.
Qed.

(** The initials shown for a signed-in user have at most two characters,
    none of them an at-sign or a lower-case letter. *)
Theorem getUserInitials_shape (email : string) :
  (String.length (getUserInitials email) <= 2)%nat
  /\ forall i c, String.get i (getUserInitials email) = Some c ->
                 c <> "@"%char /\ is_lower_ascii c = false.
Proof.
  unfold getUserInitials. split.
  - rewrite length_toUpperCase. apply substring_length.
  - intros i c H. rewrite get_toUpperCase in H.
    destruct (String.get i (substring 0 2 (before_at email))) as [c0|] eqn:E;
      [|discriminate H].
    injection H as <-. apply get_substring0, get_before_at in E.
    destruct (upper_ascii_shape c0) as [H1 H2]. split; [|exact H1].
    intro Hc. exact (E (H2 Hc)).
Qed.

(** ** Reminders *)

(** The interval started at [t0] runs its checks at [t0 + 30000 * k] for
    [k >= 1].  An active task whose reminder time is valid and later than
    [t0] is notified at exactly two consecutive checks. *)
Theorem reminder_notified_twice (parseTime : string -> option Z) (t0 : Z)
    (ts : list Task) (t : Task) (r : string) (reminderTime : Z) :
  In t ts ->
  reminderAt t = Some r -> is_empty r = false -> completed t = false ->
  parseTime r = Some reminderTime ->
  t0 < reminderTime ->
  exists k0, 1 <= k0 /\ forall k, 1 <= k ->
    (In t (checkReminders parseTime (reminderTick t0 k) ts) <-> k = k0 \/ k = k0 + 1).
Proof.
  intros Hin Hr He Hc Hp Ht.
  exists ((reminderTime - t0 + 29999) / 30000).
  split; [Z.div_mod_to_equations; lia|]. intros k Hk.
  unfold checkReminders. rewrite filter_In.
  unfold reminder_fires. rewrite Hr, He, Hc, Hp. unfold reminderTick.
  rewrite andb_true_iff, Z.leb_le, Z.ltb_lt.
  split.
  - intros [_ [H1 H2]]. Z.div_mod_to_equations. lia.
  - intro H. split; [exact Hin|]. Z.div_mod_to_equations. lia.
Qed.

(** ** Decimal strings and the date round trip ([toISOString], [new Date]) *)


Lemma str_app_assoc (a b c : string) : ((a ++ b) ++ c)%string = (a ++ (b ++ c))%string.
Proof. induction a as [|x a IH]; simpl; [reflexivity|]. rewrite IH. reflexivity. Qed.

Lemma str_length_app (a b : string) :
  String.length (a ++ b) = (String.length a + String.length b)%nat.
Proof. induction a as [|x a IH]; simpl; auto. Qed.

Lemma str_app_empty_r (a : string) : (a ++ EmptyString)%string = a.
Proof. induction a as [|x a IH]; simpl; [reflexivity|]. rewrite IH. reflexivity. Qed.

Lemma digits_value_app s1 s2 a :
  digits_value (s1 ++ s2) a
  = match digits_value s1 a with Some v => digits_value s2 v | None => None end.
Proof.
  revert a. induction s1 as [|c s1 IH]; intro a; simpl; [reflexivity|].
  destruct (digit_of c); [apply IH|reflexivity].
Qed.

Lemma digit_of_digit k :
  0 <= k <= 9 -> digit_of (ascii_of_nat (48 + Z.to_nat k)) = Some k.
Proof.
  intro Hk. unfold digit_of. rewrite nat_ascii_embedding by lia.
  replace (Nat.leb 48 (48 + Z.to_nat k) && Nat.leb (48 + Z.to_nat k) 57)%bool with true
    by (symmetry; apply andb_true_iff; split; apply Nat.leb_le; lia).
  f_equal. lia.
Qed.

Lemma digits_aux_S fuel n acc :
  digits_aux (S fuel) n acc
  = if n <? 10 then String (ascii_of_nat (48 + Z.to_nat (n mod 10))) acc
    else digits_aux fuel (n / 10) (String (ascii_of_nat (48 + Z.to_nat (n mod 10))) acc).
Proof. reflexivity. Qed.

Lemma digits_aux_spec fuel n acc :
  0 <= n < 10 ^ Z.of_nat fuel ->
  exists s, digits_aux fuel n acc = (s ++ acc)%string
    /\ digits_value s 0 = Some n
    /\ forall w, (1 <= w)%nat -> n < 10 ^ Z.of_nat w -> (String.length s <= w)%nat.
Proof.
  revert n acc. induction fuel as [|fuel IH]; intros n acc Hn.
  - simpl in Hn. assert (n = 0) by lia. subst n.
    exists EmptyString. simpl. split; [reflexivity|]. split; [reflexivity|].
    intros; lia.
  - rewrite digits_aux_S.
    set (d := ascii_of_nat (48 + Z.to_nat (n mod 10))).
    assert (Hd : digit_of d = Some (n mod 10))
      by (apply digit_of_digit; pose proof (Z.mod_pos_bound n 10); lia).
    clearbody d.
    destruct (n <? 10) eqn:E.
    + apply Z.ltb_lt in E. exists (String d EmptyString). simpl.
      split; [reflexivity|]. split.
      * rewrite Hd. f_equal. rewrite Z.mod_small by lia. lia.
      * intros w Hw _. exact Hw.
    + apply Z.ltb_ge in E.
      assert (Hq : 0 <= n / 10 < 10 ^ Z.of_nat fuel).
      { rewrite Nat2Z.inj_succ, Z.pow_succ_r in Hn by lia.
        split; [apply Z.div_pos; lia|]. apply Z.div_lt_upper_bound; lia. }
      destruct (IH (n / 10) (String d acc) Hq) as (s & Hs & Hv & Hw).
      exists (s ++ String d EmptyString)%string. split.
      * rewrite Hs, str_app_assoc. reflexivity.
      * split.
        -- rewrite digits_value_app, Hv. cbn [digits_value]. rewrite Hd. f_equal.
           pose proof (Z.div_mod n 10 ltac:(lia)). lia.
        -- intros w Hw1 Hlt. rewrite str_length_app. simpl.
           destruct w as [|[|w]]; [lia| |].
           ++ simpl in Hlt. lia.
           ++ assert (n / 10 < 10 ^ Z.of_nat (S w)).
              { apply Z.div_lt_upper_bound; [lia|].
                rewrite <- Z.pow_succ_r by lia. rewrite <- Nat2Z.inj_succ. exact Hlt. }
              specialize (Hw (S w) ltac:(lia) H). lia.
Qed.

Lemma zeros_spec k s :
  digits_value (zeros k ++ s) 0 = digits_value s 0 /\ String.length (zeros k) = k.
Proof.
  induction k as [|k IH]; simpl; [auto|]. split; [|f_equal; apply IH].
  apply IH.
Qed.

Lemma pad_spec w n :
  (1 <= w <= 64)%nat -> 0 <= n < 10 ^ Z.of_nat w ->
  String.length (pad w n) = w /\ digits_value (pad w n) 0 = Some n.
Proof.
  intros Hw Hn. unfold pad, string_of_Z.
  assert (H64 : 0 <= n < 10 ^ Z.of_nat 64).
  { split; [lia|]. eapply Z.lt_le_trans; [exact (proj2 Hn)|].
    apply Z.pow_le_mono_r; lia. }
  destruct (digits_aux_spec 64 n EmptyString H64) as (s & Hs & Hv & Hl).
  rewrite Hs, str_app_empty_r.
  specialize (Hl w (proj1 Hw) (proj2 Hn)).
  destruct (zeros_spec (w - String.length s) s) as [Z1 Z2].
  split.
  - rewrite str_length_app, Z2. lia.
  - rewrite Z1. exact Hv.
Qed.

Lemma civil_year_range d :
  DayFromYear 0 <= d < DayFromYear 10000 ->
  let '(y, _, _) := civil d in 0 <= y <= 9999.
Proof.
  intros Hd. unfold civil. cbv zeta.
  pose proof (YearFromDay_spec d) as Hy.
  set (y := YearFromDay d) in *.
  split.
  - destruct (Z_lt_le_dec y 0) as [Hlt|]; [|lia].
    pose proof (DayFromYear_lt y 0 Hlt). lia.
  - destruct (Z_lt_le_dec 9999 y) as [Hlt|]; [|lia].
    pose proof (DayFromYear_lt 9999 y Hlt) as H. change (9999 + 1) with 10000 in H. lia.
Qed.

Ltac str_chars H :=
  match type of H with
  | String.length ?A = _ =>
      let a1 := fresh "a" in let a2 := fresh "a" in
      let a3 := fresh "a" in let a4 := fresh "a" in
      destruct A as [|a1 [|a2 [|a3 [|a4 [|]]]]]; simpl in H; try discriminate H
  end.

Lemma parseDate_isoDate d :
  DayFromYear 0 <= d < DayFromYear 10000 -> parseDate (isoDate d) = Some d.
Proof.
  intros Hd.
  pose proof (civil_year_range d Hd) as Hy.
  pose proof (civil_valid d) as Hv.
  unfold isoDate.
  destruct (civil d) as [[y m] dt].
  destruct Hv as [[Hm Hdt] HMk].
  pose proof (InLeapYear_range y) as Hl.
  pose proof (month_start_bounds m (InLeapYear y) Hl Hm) as (Hb & _).
  unfold DaysInMonth in Hdt.
  replace (Z.leb 0 y && Z.leb y 9999)%bool with true
    by (symmetry; apply andb_true_iff; split; apply Z.leb_le; lia).
  destruct (pad_spec 4 y ltac:(lia) ltac:(simpl; lia)) as [LA VA].
  destruct (pad_spec 2 (m + 1) ltac:(lia) ltac:(simpl; lia)) as [LB VB].
  destruct (pad_spec 2 dt ltac:(lia) ltac:(simpl; lia)) as [LC VC].
  revert LA LB LC VA VB VC.
  generalize (pad 4 y) (pad 2 (m + 1)) (pad 2 dt).
  intros A B C LA LB LC VA VB VC.
  str_chars LA. str_chars LB. str_chars LC.
  unfold parseDate. cbn [String.length append substring String.get].
  simpl (negb _). rewrite VA, VB, VC. cbn [is_dash Ascii.eqb].
  replace (m + 1 - 1) with m by lia.
  match goal with |- (if ?b then _ else _) = _ => replace b with true end.
  - rewrite HMk. reflexivity.
  - symmetry. rewrite !andb_true_iff, !Z.leb_le. unfold DaysInMonth. repeat split; try reflexivity; lia.
Qed.

Lemma civil_inj a b : civil a = civil b -> a = b.
Proof.
  intro H. pose proof (civil_valid a) as Ha. pose proof (civil_valid b) as Hb.
  rewrite H in Ha. destruct (civil b) as [[y m] d].
  destruct Ha as [_ Ha], Hb as [_ Hb]. congruence.
Qed.

Lemma parseDate_nonempty s d : parseDate s = Some d -> is_empty s = false.
Proof. destruct s; [discriminate | reflexivity]. Qed.

Lemma parseDate_range s d :
  parseDate s = Some d -> DayFromYear 0 <= d < DayFromYear 10000.
Proof.
  intro Hp. destruct (parseDate_spec _ _ Hp) as (y & m & dt & Hy & Hv & ->).
  pose proof (civil_MakeDay y m dt Hv) as Hc.
  pose proof (YearFromDay_spec (MakeDay y m dt)) as Hs.
  unfold civil in Hc. cbv zeta in Hc.
  injection Hc as Hy' _ _. rewrite Hy' in Hs.
  assert (Hmono : forall a b, a <= b -> DayFromYear a <= DayFromYear b)
    by (intros a b Hab; unfold DayFromYear; Z.div_mod_to_equations; lia).
  pose proof (Hmono 0 y ltac:(lia)). pose proof (Hmono (y + 1) 10000 ltac:(lia)). lia.
Qed.

Lemma startOfDay_eq now : startOfDay now = msPerDay * (now / msPerDay).
Proof. unfold startOfDay. rewrite Z.mod_eq by (unfold msPerDay; lia). lia. Qed.

Lemma isOverdue_parsed now s d :
  parseDate s = Some d -> isOverdue now (Some s) = (d <? now / msPerDay).
Proof.
  intro Hp. unfold isOverdue. rewrite (parseDate_nonempty _ _ Hp), Hp, startOfDay_eq.
  unfold msPerDay.
  destruct (d * 86400000 <? 86400000 * (now / 86400000)) eqn:E1,
           (d <? now / 86400000) eqn:E2; auto;
    rewrite ?Z.ltb_lt, ?Z.ltb_ge in E1, E2; lia.
Qed.

Lemma get_app_r (a b : string) k :
  String.get (String.length a + k) (a ++ b) = String.get k b.
Proof. induction a as [|x a IH]; simpl; [reflexivity|]. apply IH. Qed.

Lemma month_short_length m : String.length (month_short m) = 3%nat.
Proof.
  unfold month_short. destruct m as [|p|p]; [reflexivity| |reflexivity].
  repeat (destruct p as [p|p|]; try reflexivity).
Qed.

Lemma formatDueDate_parsed now s d :
  parseDate s = Some d ->
  (formatDueDate now s = "Today"%string <-> d = now / msPerDay)
  /\ (formatDueDate now s = "Tomorrow"%string <-> d = now / msPerDay + 1).
Proof.
  intro Hp. unfold formatDueDate. rewrite Hp, startOfDay_eq.
  assert (Hother : forall m dt,
    (month_short m ++ " " ++ string_of_Z dt)%string <> "Today"%string
    /\ (month_short m ++ " " ++ string_of_Z dt)%string <> "Tomorrow"%string).
  { intros m dt. split; intro H;
      apply (f_equal (String.get 3)) in H;
      rewrite <- (month_short_length m) in H at 1;
      replace (String.length (month_short m)) with (String.length (month_short m) + 0)%nat
        in H by lia;
      rewrite get_app_r in H; discriminate H. }
  unfold msPerDay.
  destruct (d * 86400000 =? 86400000 * (now / 86400000)) eqn:E1;
    [apply Z.eqb_eq in E1 | apply Z.eqb_neq in E1].
  - split; split; intro H; try reflexivity; try lia. discriminate H.
  - destruct (d * 86400000 =? 86400000 * (now / 86400000) + 86400000) eqn:E2;
      [apply Z.eqb_eq in E2 | apply Z.eqb_neq in E2].
    + split; split; intro H; try reflexivity; try lia. discriminate H.
    + destruct (civil d) as [[y m] dt].
      destruct (Hother m dt) as [H1 H2].
      split; split; intro H; try contradiction; lia.
Qed.

Lemma nextDueDate_daily due cur :
  parseDate due = Some cur -> cur + 1 < DayFromYear 10000 ->
  exists s', nextDueDate Daily due = Some s' /\ parseDate s' = Some (cur + 1).
Proof.
  intros Hp Hlt.
  destruct (nextDueDate_spec Daily due cur ltac:(discriminate) Hp) as (nd & Hn & Hc).
  cbn [next_due_calendar] in Hc. apply civil_inj in Hc. subst nd.
  exists (isoDate (cur + 1)). split; [exact Hn|].
  apply parseDate_isoDate. pose proof (parseDate_range _ _ Hp). lia.
Qed.

(** A daily task due today is shown as "Today" and is not overdue; completing
    it spawns a task that is shown as "Tomorrow" and is not overdue either
    (dates in UTC, before the year 10000). *)
Theorem completeTask_daily_due_today now taskId st task due :
  find_task taskId (tasks st) = Some task ->
  recurrence task = Daily ->
  dueDate task = Some due ->
  parseDate due = Some (now / msPerDay) ->
  now / msPerDay + 1 < DayFromYear 10000 ->
  formatDueDate now due = "Today"%string
  /\ isOverdue now (Some due) = false
  /\ exists prefix nt s',
       tasks (completeTask now taskId st) = prefix ++ [nt]
       /\ completed nt = false
       /\ dueDate nt = Some s'
       /\ formatDueDate now s' = "Tomorrow"%string
       /\ isOverdue now (Some s') = false.
Proof.
  intros Hf Hr Hd Hp Hlt.
  destruct (nextDueDate_daily due _ Hp Hlt) as (s' & Hn & Hp').
  split; [apply (proj1 (formatDueDate_parsed now due _ Hp)); reflexivity|].
  split; [rewrite (isOverdue_parsed now due _ Hp); apply Z.ltb_irrefl|].
  unfold completeTask. rewrite Hf, Hd, Hr, (parseDate_nonempty _ _ Hp), Hn.
  cbn [negb andb is_none_rec].
  eexists _, _, s'. split; [reflexivity|]. split; [reflexivity|].
  split; [reflexivity|]. split.
  - apply (proj2 (formatDueDate_parsed now s' _ Hp')). reflexivity.
  - rewrite (isOverdue_parsed now s' _ Hp'). apply Z.ltb_ge. lia.
Qed.

(** The due date that [completeTask] writes with [toISOString] for a day of
    the years 0 to 9999 is read back by [new Date] as the same day. *)
Theorem isoDate_parseDate_roundtrip (d : Z) :
  DayFromYear 0 <= d < DayFromYear 10000 -> parseDate (isoDate d) = Some d.
Proof. exact (parseDate_isoDate d). Qed.

(** A valid due date is overdue exactly when its day lies strictly before
    the current day. *)
Theorem isOverdue_before_today (now : Z) (s : string) (d : Z) :
  parseDate s = Some d -> isOverdue now (Some s) = (d <? now / msPerDay).
Proof. exact (isOverdue_parsed now s d). Qed.

(** A valid due date is shown as "Today" exactly when it is the current day
    and as "Tomorrow" exactly when it is the next day. *)
Theorem formatDueDate_today_tomorrow (now : Z) (s : string) (d : Z) :
  parseDate s = Some d ->
  (formatDueDate now s = "Today"%string <-> d = now / msPerDay)
  /\ (formatDueDate now s = "Tomorrow"%string <-> d = now / msPerDay + 1).
Proof. exact (formatDueDate_parsed now s d). Qed.

(** ** Instances of the properties above on concrete stores *)

Section Instances.
Local Open Scope string_scope.

Lemma completeTask_nonrecurring_views_witness :
  getTasksForQuadrant (completeTask 5 "a" two_task_store) "Q1"
    = filter (fun t => negb (String.eqb (id t) "a"))
        (getTasksForQuadrant two_task_store "Q1")
  /\ List.length (tasks (completeTask 5 "a" two_task_store))
     = List.length (tasks two_task_store).
Proof.
  apply (completeTask_nonrecurring_views 5 "a" two_task_store
           (sample_task "a" "1" "Q1" 0 []) "Q1"); reflexivity.
Defined.

Lemma updateTask_keeps_quadrant_sequence_witness :
  map (fun t => (id t, order t))
    (getTasksForQuadrant
       (updateTask "a" (mkForm "Renamed" EmptyString EmptyString "x" Weekly) two_task_store) "Q1")
  = map (fun t => (id t, order t)) (getTasksForQuadrant two_task_store "Q1").
Proof.
  apply (updateTask_keeps_quadrant_sequence "a" (mkForm "Renamed" EmptyString EmptyString "x" Weekly)
           two_task_store "Q1").
  reflexivity.
Defined.

Lemma updateTask_blank_title_rejected_witness :
  tasks (updateTask "a" (mkForm "   " EmptyString EmptyString EmptyString RNone) two_task_store)
    = tasks two_task_store
  /\ lookup "a" (errorMessages (updateTask "a" (mkForm "   " EmptyString EmptyString EmptyString RNone)
                                 two_task_store)) = Some title_required.
Proof.
  apply (updateTask_blank_title_rejected "a" (mkForm "   " EmptyString EmptyString EmptyString RNone)
           two_task_store).
  vm_compute. reflexivity.
Defined.

Lemma addTask_shown_last_witness :
  exists nt,
    tasks (addTask 7 "Q1" (empty_store_with "Q1" (mkForm " Plan " EmptyString EmptyString EmptyString RNone)))
      = (tasks (empty_store_with "Q1" (mkForm " Plan " EmptyString EmptyString EmptyString RNone)) ++ [nt])%list
    /\ title nt = trim (f_title (mkForm " Plan " EmptyString EmptyString EmptyString RNone))
    /\ quadrantId nt = "Q1"
    /\ boardId nt = activeBoardId (empty_store_with "Q1" (mkForm " Plan " EmptyString EmptyString EmptyString RNone))
    /\ completed nt = false
    /\ lookup "Q1" (newTaskInputs
         (addTask 7 "Q1" (empty_store_with "Q1" (mkForm " Plan " EmptyString EmptyString EmptyString RNone)))) = None
    /\ lookup "Q1" (errorMessages
         (addTask 7 "Q1" (empty_store_with "Q1" (mkForm " Plan " EmptyString EmptyString EmptyString RNone))))
         = Some EmptyString
    /\ (tag_filter_ok (activeTagFilter
          (empty_store_with "Q1" (mkForm " Plan " EmptyString EmptyString EmptyString RNone))) nt = true ->
        hd_error (rev (getTasksForQuadrant
          (addTask 7 "Q1" (empty_store_with "Q1" (mkForm " Plan " EmptyString EmptyString EmptyString RNone)))
          "Q1")) = Some nt).
Proof.
  apply (addTask_shown_last 7 "Q1" (empty_store_with "Q1" (mkForm " Plan " EmptyString EmptyString EmptyString RNone))
           (mkForm " Plan " EmptyString EmptyString EmptyString RNone)).
  - reflexivity.
  - vm_compute. reflexivity.
Defined.

Lemma keyboard_move_shown_last_witness :
  exists t',
    hd_error (rev (getTasksForQuadrant
      (handleKeyboardMove "a" "Q2" None two_task_store) "Q2")) = Some t'
    /\ id t' = "a" /\ quadrantId t' = "Q2"
    /\ order t' = getNextOrder two_task_store "Q2".
Proof.
  apply (keyboard_move_shown_last "a" "Q2" two_task_store
           (sample_task "a" "1" "Q1" 0 [])); reflexivity.
Defined.

Lemma createNewBoard_fresh_board_witness :
  exists b,
    boards (createNewBoard 1000 (Some " Work ") two_task_store) = (boards two_task_store ++ [b])%list
    /\ activeBoardId (createNewBoard 1000 (Some " Work ") two_task_store) = b_id b
    /\ b_name b = trim " Work " /\ trim (b_name b) = b_name b
    /\ is_empty (b_name b) = false
    /\ tasks (createNewBoard 1000 (Some " Work ") two_task_store) = tasks two_task_store
    /\ (forall q, getTasksForQuadrant (createNewBoard 1000 (Some " Work ") two_task_store) q = []
                  /\ getNextOrder (createNewBoard 1000 (Some " Work ") two_task_store) q = 0).
Proof.
  apply (createNewBoard_fresh_board 1000 " Work " two_task_store).
  - vm_compute. reflexivity.
  - vm_compute. repeat constructor; discriminate.
Defined.

Lemma reminder_notified_twice_witness :
  exists k0, 1 <= k0 /\ forall k, 1 <= k ->
    (In (mkTask "r" "1" "Q1" "Call" 0 false None 0 None (Some "09:00") [] RNone)
       (checkReminders (fun _ => Some 100000) (reminderTick 0 k)
          [mkTask "r" "1" "Q1" "Call" 0 false None 0 None (Some "09:00") [] RNone])
    <-> k = k0 \/ k = k0 + 1).
Proof.
  apply (reminder_notified_twice (fun _ => Some 100000) 0
           [mkTask "r" "1" "Q1" "Call" 0 false None 0 None (Some "09:00") [] RNone]
           (mkTask "r" "1" "Q1" "Call" 0 false None 0 None (Some "09:00") [] RNone)
           "09:00" 100000).
  - left. reflexivity.
  - reflexivity.
  - reflexivity.
  - reflexivity.
  - reflexivity.
  - lia.
Defined.

Lemma completeTask_daily_due_today_witness :
  formatDueDate (19753 * 86400000 + 3600000) "2024-01-31" = "Today"
  /\ isOverdue (19753 * 86400000 + 3600000) (Some "2024-01-31") = false
  /\ exists prefix nt s',
       tasks (completeTask (19753 * 86400000 + 3600000) "d" daily_store) = (prefix ++ [nt])%list
       /\ completed nt = false
       /\ dueDate nt = Some s'
       /\ formatDueDate (19753 * 86400000 + 3600000) s' = "Tomorrow"
       /\ isOverdue (19753 * 86400000 + 3600000) (Some s') = false.
Proof.
  apply (completeTask_daily_due_today (19753 * 86400000 + 3600000) "d" daily_store
           (mkTask "d" "1" "Q1" "Stretch" 0 false None 0 (Some "2024-01-31") None []
              Daily) "2024-01-31").
  - reflexivity.
  - reflexivity.
  - reflexivity.
  - vm_compute. reflexivity.
  - vm_compute. reflexivity.
Defined.

Lemma isoDate_parseDate_roundtrip_witness :
  (DayFromYear 0 <= 19753 < DayFromYear 10000)
  /\ parseDate (isoDate 19753) = Some 19753.
Proof.
  assert (H : DayFromYear 0 <= 19753 < DayFromYear 10000)
    by (split; [apply Z.leb_le | apply Z.ltb_lt]; vm_compute; reflexivity).
  split; [exact H | apply (isoDate_parseDate_roundtrip 19753 H)].
Defined.

Lemma isOverdue_before_today_witness :
  parseDate "2024-01-31" = Some 19753
  /\ isOverdue (19754 * 86400000) (Some "2024-01-31")
     = Z.ltb 19753 ((19754 * 86400000) / msPerDay).
Proof.
  split; [vm_compute; reflexivity|].
  apply (isOverdue_before_today (19754 * 86400000) "2024-01-31" 19753).
  vm_compute. reflexivity.
Defined.

Lemma formatDueDate_today_tomorrow_witness :
  parseDate "2024-01-31" = Some 19753
  /\ (formatDueDate (19753 * 86400000) "2024-01-31" = "Today"
        <-> 19753 = (19753 * 86400000) / msPerDay)
  /\ (formatDueDate (19753 * 86400000) "2024-01-31" = "Tomorrow"
        <-> 19753 = (19753 * 86400000) / msPerDay + 1).
Proof.
  split; [vm_compute; reflexivity|].
  apply (formatDueDate_today_tomorrow (19753 * 86400000) "2024-01-31" 19753).
  vm_compute. reflexivity.
Defined.

End Instances.
